(** * obraseco-sql-legacy: the catalogue service of [app.py]

    A shallow embedding of [app.py] (text normalisation, keyword
    extraction, the SQL Server -> Supabase synchronisation and the
    [/search-multi] endpoint), followed by the properties proved of it.

    Python strings are sequences of Unicode code points: [pystr] is
    [list Z].  The interpreter's Unicode tables that the code reaches
    through [str.lower] and the regular expression class [\w] are the
    fields of the class [UnicodeDB]; the functions below are written over
    any such table, and [latin1] is the table for text whose code points
    are below 256, used to run the functions on concrete inputs. *)

From Stdlib Require Import ZArith Lia Bool List Ascii String DecimalString.
From stdpp Require Import base option list gmap fin_sets.

Local Open Scope Z_scope.

(* ================================================================== *)
(** * Python strings *)
(* ================================================================== *)

Abbreviation pystr := (list Z).

Module Utf8.

(** Source text literals are UTF-8; [py] reads a literal as the
    sequence of code points Python sees. *)

Fixpoint bytes (s : string) : list Z :=
  match s with
  | EmptyString => []
  | String a r => Z.of_nat (nat_of_ascii a) :: bytes r
  end.

Fixpoint decode (bs : list Z) : pystr :=
  match bs with
  | [] => []
  | b0 :: r =>
      if b0 <? 128 then b0 :: decode r
      else if b0 <? 224 then
        match r with
        | b1 :: r1 => ((b0 mod 32) * 64 + b1 mod 64) :: decode r1
        | _ => []
        end
      else if b0 <? 240 then
        match r with
        | b1 :: b2 :: r2 =>
            ((b0 mod 16) * 4096 + (b1 mod 64) * 64 + b2 mod 64) :: decode r2
        | _ => []
        end
      else
        match r with
        | b1 :: b2 :: b3 :: r3 =>
            ((b0 mod 8) * 262144 + (b1 mod 64) * 4096
             + (b2 mod 64) * 64 + b3 mod 64) :: decode r3
        | _ => []
        end
  end.

Definition py (s : string) : pystr := decode (bytes s).

End Utf8.

Abbreviation py := Utf8.py.

Definition pystr_eqb (a b : pystr) : bool := bool_decide (a = b).

(** [sep.join(parts)] *)
Fixpoint join (sep : pystr) (parts : list pystr) : pystr :=
  match parts with
  | [] => []
  | [p] => p
  | p :: rest => p ++ sep ++ join sep rest
  end.

(** [s.startswith(p)] *)
Fixpoint startswith (s p : pystr) : bool :=
  match p, s with
  | [], _ => true
  | x :: p', y :: s' => (x =? y) && startswith s' p'
  | _ :: _, [] => false
  end.

(** [s.endswith(p)] *)
Definition endswith (s p : pystr) : bool := startswith (rev s) (rev p).

(** [s.replace(old, new)]: occurrences of [old] are replaced from left to
    right and do not overlap.  [replace_go skip s] is the scan at a position:
    [skip] counts the characters of the occurrence just replaced that
    are still to be passed over. *)
Section Replace.
Variables old new : pystr.

Fixpoint replace_go (skip : nat) (s : pystr) : pystr :=
  match s with
  | [] => []
  | c :: s' =>
      match skip with
      | S k => replace_go k s'
      | O =>
          if startswith s old
          then new ++ replace_go (length old - 1) s'
          else c :: replace_go 0 s'
      end
  end.

Definition str_replace (s : pystr) : pystr :=
  match old with
  | [] => new ++ flat_map (fun c => c :: new) s
  | _ :: _ => replace_go 0 s
  end.
End Replace.

(** [Py_UNICODE_ISSPACE]: the characters [str.strip], [str.isspace] and
    the regular expression class [\s] treat as whitespace. *)
Definition isspace (c : Z) : bool :=
  ((9 <=? c) && (c <=? 13)) || ((28 <=? c) && (c <=? 32))
  || (c =? 133) || (c =? 160) || (c =? 5760)
  || ((8192 <=? c) && (c <=? 8202))
  || (c =? 8232) || (c =? 8233) || (c =? 8239) || (c =? 8287)
  || (c =? 12288).

Fixpoint lstrip (s : pystr) : pystr :=
  match s with
  | [] => []
  | c :: s' => if isspace c then lstrip s' else s
  end.

Definition rstrip (s : pystr) : pystr := rev (lstrip (rev s)).

(** [s.strip()] *)
Definition strip (s : pystr) : pystr := rstrip (lstrip s).

(** The interpreter's Unicode tables. *)
Class UnicodeDB := {
  (** [str.lower] *)
  lower : pystr -> pystr;
  (** [str.isalnum] on one character *)
  isalnum : Z -> bool
}.

(** The tables restricted to Latin-1 text. *)
Definition latin1_lower_char (c : Z) : Z :=
  if ((65 <=? c) && (c <=? 90))
     || ((192 <=? c) && (c <=? 222) && negb (c =? 215))
  then c + 32 else c.

Definition latin1_isalnum (c : Z) : bool :=
  ((48 <=? c) && (c <=? 57)) || ((65 <=? c) && (c <=? 90))
  || ((97 <=? c) && (c <=? 122))
  || (c =? 170) || (c =? 178) || (c =? 179) || (c =? 181)
  || (c =? 185) || (c =? 186) || ((188 <=? c) && (c <=? 190))
  || ((192 <=? c) && (c <=? 255) && negb (c =? 215) && negb (c =? 247)).

Definition latin1 : UnicodeDB :=
  {| lower := map latin1_lower_char; isalnum := latin1_isalnum |}.

(** What the code relies on of [str.lower]: the characters it produces
    are left alone by it, and so is any text made of characters that are
    left alone, among them the unaccented letters of [normalize_text] and
    the space. *)
Definition lower_keeps `{UnicodeDB} (c : Z) : Prop := lower [c] = [c].

Class LowerStable (db : UnicodeDB) : Prop := {
  lower_produces : forall s, Forall lower_keeps (lower s);
  lower_fixes : forall s, Forall lower_keeps s -> lower s = s;
  lower_plain : Forall lower_keeps [97; 101; 105; 111; 117; 110; 32]
}.

(* ================================================================== *)
(** * Regular expressions used by the code *)
(* ================================================================== *)

Section Regex.
Context {db : UnicodeDB}.

(** ** [re.sub(r'\s+', ' ', s)] *)

(** Greedy [\s+] at the head of [s]: the number of characters matched
    ([0]: no match). *)
Fixpoint match_spaces (s : pystr) : nat :=
  match s with
  | c :: s' => if isspace c then S (match_spaces s') else O
  | [] => O
  end.

(** The scan of [re.sub]: at a position where the pattern matches, the
    replacement is written and the scan resumes after the match. *)
Fixpoint sub_spaces_go (repl : pystr) (skip : nat) (s : pystr) : pystr :=
  match s with
  | [] => []
  | c :: s' =>
      match skip with
      | S k => sub_spaces_go repl k s'
      | O =>
          match match_spaces s with
          | O => c :: sub_spaces_go repl 0 s'
          | S n => repl ++ sub_spaces_go repl n s'
          end
      end
  end.

Definition re_sub_spaces (repl s : pystr) : pystr := sub_spaces_go repl 0 s.

(** ** [re.findall(r'\b\w+\b', s)] *)

(** [\w] *)
Definition is_word (c : Z) : bool := isalnum c || (c =? 95).

Definition is_word_opt (c : option Z) : bool :=
  match c with Some x => is_word x | None => false end.

(** [\b] between the characters [prev] and [next] ([None] at either end
    of the string). *)
Definition word_boundary (prev next : option Z) : bool :=
  xorb (is_word_opt prev) (is_word_opt next).

(** [\w+\b] after a first word character [prev] has been consumed:
    [\w+] takes as many further characters as it can and gives them
    back one by one until [\b] holds.  The result is the number of
    further characters in the match. *)
Fixpoint match_word_rest (prev : Z) (s : pystr) : option nat :=
  let stop := if word_boundary (Some prev) (head s) then Some O else None in
  match s with
  | c :: s' =>
      if is_word c then
        match match_word_rest c s' with
        | Some n => Some (S n)
        | None => stop
        end
      else stop
  | [] => stop
  end.

Fixpoint findall_go (prev : option Z) (skip : nat) (s : pystr) : list pystr :=
  match s with
  | [] => []
  | c :: s' =>
      match skip with
      | S k => findall_go (Some c) k s'
      | O =>
          if word_boundary prev (Some c) && is_word c then
            match match_word_rest c s' with
            | Some n => take (S n) s :: findall_go (Some c) n s'
            | None => findall_go (Some c) 0 s'
            end
          else findall_go (Some c) 0 s'
      end
  end.

Definition re_findall_words (s : pystr) : list pystr := findall_go None 0 s.

End Regex.

(* ================================================================== *)
(** * Utilitarios *)
(* ================================================================== *)

Section Utilitarios.
Context {db : UnicodeDB}.

(** The dictionary [replacements] of [normalize_text], in insertion
    order. *)
Definition replacements : list (pystr * pystr) :=
  [ (py "á", py "a"); (py "é", py "e"); (py "í", py "i");
    (py "ó", py "o"); (py "ú", py "u"); (py "ñ", py "n");
    (py "ü", py "u") ].

(** [normalize_text(text)]; [None] is a missing text. *)
Definition normalize_text (text : option pystr) : pystr :=
  match text with
  | None | Some [] => []
  | Some text =>
      let text := lower text in
      let text :=
        foldl (fun text '(old, new) => str_replace old new text)
              text replacements in
      strip (re_sub_spaces (py " ") text)
  end.

Definition stop_words : gset pystr :=
  list_to_set (map py
    [ "de"; "la"; "el"; "en"; "con"; "para"; "por"; "un"; "una"; "y";
      "o"; "del"; "las"; "los" ]%string).

(** The condition of the comprehension [keywords]. *)
Definition is_keyword (w : pystr) : bool :=
  (2 <? length w)%nat && negb (bool_decide (w ∈ stop_words)).

(** One step of the loop over [keywords]. *)
Definition add_variant (extended : gset pystr) (word : pystr) : gset pystr :=
  if endswith word (py "s") && (3 <? length word)%nat
  then extended ∪ {[ removelast word ]}
  else extended ∪ {[ word ++ py "s" ]}.

(** [extract_keywords(description)].  The function returns
    [list(extended_keywords)], the elements of the set in the order the
    interpreter enumerates them; the model returns the set. *)
Definition extract_keywords (description : option pystr) : gset pystr :=
  match description with
  | None | Some [] => ∅
  | Some _ =>
      let words := re_findall_words (normalize_text description) in
      let keywords := List.filter is_keyword words in
      foldl add_variant (list_to_set keywords) keywords
  end.

End Utilitarios.

(* ================================================================== *)
(** * The outside world: configuration, calls and their outcomes *)
(* ================================================================== *)

(** [str(n)] for the integers the code formats into messages. *)
Definition str_of_nat (n : nat) : pystr :=
  Utf8.bytes (NilEmpty.string_of_uint (Nat.to_uint n)).

Definition str_of_Z (z : Z) : pystr :=
  Utf8.bytes (NilEmpty.string_of_int (Z.to_int z)).

(** Truth value of an optional string ([None] and [''] are false). *)
Definition truthy (s : option pystr) : bool :=
  match s with
  | None | Some [] => false
  | Some _ => true
  end.

Definition or_empty (s : option pystr) : pystr := default [] s.

(** The environment variables read by the module. *)
Record config := {
  SQLSERVER_HOST : option pystr;
  SQLSERVER_DB : option pystr;
  SQLSERVER_USER : option pystr;
  SQLSERVER_PASS : option pystr;
  SUPABASE_URL : option pystr;
  SUPABASE_KEY : option pystr;
  API_TOKEN : option pystr
}.

Definition conn_str (cfg : config) : pystr :=
  py "DRIVER={ODBC Driver 17 for SQL Server};"
  ++ py "SERVER=" ++ or_empty (SQLSERVER_HOST cfg) ++ py ";"
  ++ py "DATABASE=" ++ or_empty (SQLSERVER_DB cfg) ++ py ";"
  ++ py "UID=" ++ or_empty (SQLSERVER_USER cfg) ++ py ";"
  ++ py "PWD=" ++ or_empty (SQLSERVER_PASS cfg) ++ py ";"
  ++ py "Encrypt=no;TrustServerCertificate=yes;".

(** A [decimal.Decimal]: [coefficient * 10 ^ exponent]. *)
Record Decimal := { coefficient : Z; exponent : Z }.

Definition decimal_truthy (d : Decimal) : bool := negb (coefficient d =? 0).

(** A column value; [SqlFloat d] is [float(d)]. *)
Inductive sqlval :=
| SqlNull
| SqlStr (s : pystr)
| SqlInt (z : Z)
| SqlDecimal (d : Decimal)
| SqlFloat (d : Decimal).

(** A row of [SELECT Codigo, Descri, PrecioFinal]. *)
Record stock_row := {
  row_codigo : pystr;
  row_descri : option pystr;
  row_precio : option Decimal
}.

(** [precio_final]: [float(precio)], or the integer [0]. *)
Inductive precio := PrecioFloat (d : Decimal) | PrecioInt (z : Z).

(** The dictionary [product]. *)
Record product := {
  codigo : pystr;
  descripcion : option pystr;
  descripcion_normalizada : pystr;
  precio_final : precio;
  keywords : gset pystr;
  updated_at : pystr
}.

Record datetime := { dt_str : pystr; dt_isoformat : pystr }.

Record response := { status_code : Z; text : pystr }.

(** What a call into a library gives back: a value, or an exception with
    its [str(e)]. *)
Inductive outcome (A : Type) :=
| Returns (a : A)
| Raises (msg : pystr).
Arguments Returns {A} a.
Arguments Raises {A} msg.

(** The behaviour of the outside world during one run. *)
Record world := {
  (** [datetime.now()], at its n-th reading *)
  now : nat -> datetime;
  (** [pyodbc.connect] *)
  sql_connect : outcome unit;
  (** [cursor.execute(query)] then [cursor.fetchall()] of the catalogue *)
  sql_catalog : pystr -> outcome (list stock_row);
  (** [cursor.execute(query, params)], [cursor.description] and
      [cursor.fetchall()] of a search *)
  sql_search : pystr -> list pystr -> outcome (list pystr * list (list sqlval));
  (** [requests.delete] *)
  http_delete : outcome response;
  (** [requests.post], at its n-th call *)
  http_post : nat -> list product -> outcome response
}.

(** What a run does to the outside world, in order. *)
Inductive event :=
| Print (line : pystr)
| SqlConnect (conn : pystr) (timeout : Z)
| SqlExecute (query : pystr) (params : list pystr)
| HttpDelete (url : pystr) (headers params : list (pystr * pystr))
| HttpPost (url : pystr) (headers : list (pystr * pystr)) (json : list product).

(** Computations that emit events and may raise. *)
Definition M (A : Type) : Type := list event * outcome A.

Definition ret {A} (a : A) : M A := ([], Returns a).

Definition bind {A B} (m : M A) (f : A -> M B) : M B :=
  match m with
  | (t, Returns a) => let '(t', r) := f a in (t ++ t', r)
  | (t, Raises e) => (t, Raises e)
  end.

Definition emit (e : event) : M unit := ([e], Returns tt).

(** A library call: the event, then what the world answers. *)
Definition call {A} (e : event) (o : outcome A) : M A := ([e], o).

(** [try: m except Exception as e: return handler e], where the handler
    does not raise. *)
Definition try_except {A} (m : M A) (handler : pystr -> list event * A)
  : list event * A :=
  match m with
  | (t, Returns a) => (t, a)
  | (t, Raises e) => let '(t', a) := handler e in (t ++ t', a)
  end.

Notation "'let*' x ':=' m 'in' k" := (bind m (fun x => k))
  (at level 10, x name, m at level 100, k at level 200, only parsing).
Notation "m ;> k" := (bind m (fun _ => k))
  (at level 100, k at level 200, right associativity, only parsing).

(** [range(start, stop, step)] for a positive step. *)
Definition range_step (start stop step : nat) : list nat :=
  map (fun k => start + k * step)%nat
      (seq 0 ((stop - start + (step - 1)) / step)%nat).

(** [l[i:j]] for [0 <= i <= j]. *)
Definition slice {A} (l : list A) (i j : nat) : list A :=
  take (j - i)%nat (drop i l).

Definition newline : pystr := [10].
Definition indent (n : nat) : pystr := repeat 32 n.

(* ================================================================== *)
(** * Sincronización SQL Server -> Supabase *)
(* ================================================================== *)

Section Sync.
Context {db : UnicodeDB}.
Variable cfg : config.
Variable w : world.

Definition catalog_query : pystr :=
  newline
  ++ indent 16 ++ py "SELECT Codigo, Descri, PrecioFinal" ++ newline
  ++ indent 16 ++ py "FROM dbo.ConsStock" ++ newline
  ++ indent 16 ++ py "WHERE PrecioFinal > 0" ++ newline
  ++ indent 16 ++ py "ORDER BY Codigo" ++ newline
  ++ indent 12.

(** The body of the loop over [cursor.fetchall()]; [n] is the number of
    readings of the clock so far. *)
Definition make_product (n : nat) (row : stock_row) : product :=
  let descri := row_descri row in
  {| codigo := row_codigo row;
     descripcion := descri;
     descripcion_normalizada := normalize_text descri;
     precio_final :=
       match row_precio row with
       | Some p => if decimal_truthy p then PrecioFloat p else PrecioInt 0
       | None => PrecioInt 0
       end;
     keywords := extract_keywords descri;
     updated_at := dt_isoformat (now w n) |}.

Definition read_products : M (list product) :=
  call (SqlConnect (conn_str cfg) 30) (sql_connect w) ;>
  let* rows := call (SqlExecute catalog_query []) (sql_catalog w catalog_query) in
  ret (imap (fun k row => make_product (S k) row) rows).

Definition supabase_headers : list (pystr * pystr) :=
  let key := or_empty (SUPABASE_KEY cfg) in
  [ (py "apikey", key);
    (py "Authorization", py "Bearer " ++ key);
    (py "Content-Type", py "application/json");
    (py "Prefer", py "resolution=merge-duplicates") ].

Definition table_url : pystr :=
  or_empty (SUPABASE_URL cfg) ++ py "/rest/v1/productos_catalogo".

Definition batch_size : nat := 1000.

(** The loop [for i in range(0, len(products), batch_size)] and the
    statements after it; [starts] holds the values of [i] still to come. *)
Fixpoint insert_batches (products : list product) (starts : list nat)
         (total_inserted : nat) : M bool :=
  match starts with
  | [] =>
      emit (Print (py "Sincronizacion completada - "
                   ++ str_of_nat total_inserted
                   ++ py " productos actualizados.")) ;>
      ret true
  | i :: starts' =>
      let batch := slice products i (i + batch_size) in
      let* response := call (HttpPost table_url supabase_headers batch)
                       (http_post w (i / batch_size)%nat batch) in
      if bool_decide (status_code response ∈ [200; 201; 204]) then
        emit (Print (py "Lote " ++ str_of_nat (i / batch_size + 1)
                     ++ py ": " ++ str_of_nat (length batch)
                     ++ py " productos insertados.")) ;>
        insert_batches products starts' (total_inserted + length batch)
      else
        emit (Print (py "Error en lote " ++ str_of_nat (i / batch_size + 1)
                     ++ py ": " ++ str_of_Z (status_code response)
                     ++ py " " ++ text response)) ;>
        ret false
  end.

(** The [try] block. *)
Definition sync_body : M bool :=
  emit (Print (py "Iniciando sincronizacion del catalogo - "
               ++ dt_str (now w 0))) ;>
  let* products := read_products in
  emit (Print (py "Productos leidos desde SQL Server: "
               ++ str_of_nat (length products))) ;>
  let* delete_resp := call (HttpDelete table_url supabase_headers
                                  [(py "codigo", py "not.is.null")])
                      (http_delete w) in
  (if bool_decide (status_code delete_resp ∈ [200; 204]) then ret tt
   else emit (Print (py "Error borrando registros Supabase: "
                     ++ str_of_Z (status_code delete_resp)
                     ++ py " " ++ text delete_resp))) ;>
  insert_batches products
    (range_step 0 (length products) batch_size) 0.

(** The [except] block. *)
Definition sync_handler (e : pystr) : list event * bool :=
  let msg :=
    foldl (fun msg '(a, b) => str_replace a b msg) e
      [ (py "ó", py "o"); (py "í", py "i"); (py "á", py "a");
        (py "é", py "e"); (py "ú", py "u") ] in
  ([Print (py "Error en sincronizacion: " ++ msg)], false).

(** [sync_catalog_to_supabase()]: what the run does, and its result. *)
Definition sync_catalog_to_supabase : list event * bool :=
  if negb (truthy (SUPABASE_URL cfg)) || negb (truthy (SUPABASE_KEY cfg))
  then
    ([Print (py "Supabase no configurado, saltando sincronizacion.")], false)
  else try_except sync_body sync_handler.

End Sync.

(* ================================================================== *)
(** * API *)
(* ================================================================== *)

(** [request.args.get(key)]: the first value given for [key]. *)
Definition args_get (args : list (pystr * pystr)) (key : pystr) : option pystr :=
  snd <$> List.find (fun kv => pystr_eqb (fst kv) key) args.

(** [s.split(sep)] for a separator of one character. *)
Fixpoint split (sep : Z) (s : pystr) : list pystr :=
  match s with
  | [] => [[]]
  | c :: s' =>
      if c =? sep then [] :: split sep s'
      else match split sep s' with
           | h :: t => (c :: h) :: t
           | [] => [[c]]
           end
  end.

(** [d[k] = v] on a dictionary kept in insertion order. *)
Fixpoint dict_set {V} (d : list (pystr * V)) (k : pystr) (v : V) : list (pystr * V) :=
  match d with
  | [] => [(k, v)]
  | (k', v') :: d' =>
      if pystr_eqb k' k then (k', v) :: d' else (k', v') :: dict_set d' k v
  end.

(** [dict(pairs)] *)
Definition dict_of {V} (pairs : list (pystr * V)) : list (pystr * V) :=
  foldl (fun d kv => dict_set d (fst kv) (snd kv)) [] pairs.

(** A search result, as a dictionary from column name to value. *)
Abbreviation record := (list (pystr * sqlval)).

Inductive json :=
| JsonError (error : pystr)
| JsonResults (total : nat) (results : list record).

(** What the view returns: [abort(code, description)], or
    [jsonify(body), code]. *)
Inductive http_response :=
| Abort (code : Z) (description : pystr)
| Jsonify (body : json) (code : Z).

Definition status (r : http_response) : Z :=
  match r with Abort code _ => code | Jsonify _ code => code end.

Section Api.
Variable cfg : config.
Variable w : world.

Definition like_clauses (terms : list pystr) : pystr :=
  join (py " OR ") (map (fun _ => py "Descri LIKE ?") terms).

Definition like_params (terms : list pystr) : list pystr :=
  map (fun t => py "%" ++ t ++ py "%") terms.

(** The text after [WHERE] in the query. *)
Definition where_clause (terms : list pystr) : pystr :=
  like_clauses terms ++ py " AND PrecioFinal > 0".

Definition search_query (terms : list pystr) : pystr :=
  newline
  ++ indent 16 ++ py "SELECT TOP 200 Codigo, Descri, PrecioFinal" ++ newline
  ++ indent 16 ++ py "FROM dbo.ConsStock" ++ newline
  ++ indent 16 ++ py "WHERE " ++ where_clause terms ++ newline
  ++ indent 16 ++ py "ORDER BY PrecioFinal ASC" ++ newline
  ++ indent 12.

(** The loop over [record.items()]. *)
Definition to_transport (v : sqlval) : sqlval :=
  match v with
  | SqlDecimal d => SqlFloat d
  | _ => v
  end.

Definition make_record (columns : list pystr) (row : list sqlval) : record :=
  map (fun kv => (fst kv, to_transport (snd kv))) (dict_of (zip columns row)).

(** The [try] block. *)
Definition search_body (terms : list pystr) : M http_response :=
  call (SqlConnect (conn_str cfg) 5) (sql_connect w) ;>
  let params := like_params terms in
  let query := search_query terms in
  let* found := call (SqlExecute query params) (sql_search w query params) in
  let results := map (make_record (fst found)) (snd found) in
  ret (Jsonify (JsonResults (length results) results) 200).

(** [search_multi()] for a request with the query string [args]: what
    the run does, and the response. *)
Definition search_multi (args : list (pystr * pystr))
  : list event * http_response :=
  let token := args_get args (py "token") in
  if negb (bool_decide (token = API_TOKEN cfg)) then
    ([], Abort 403 (py "Unauthorized"))
  else
    let query_param := strip (default [] (args_get args (py "query"))) in
    if negb (truthy (Some query_param)) then
      ([], Jsonify (JsonError (py "Query parameter is required.")) 400)
    else
      let terms :=
        map strip
            (List.filter (fun t => truthy (Some (strip t)))
                         (split 44 query_param)) in
      if bool_decide (terms = []) then
        ([], Jsonify (JsonError (py "No valid terms provided.")) 400)
      else
        try_except (search_body terms)
                   (fun e => ([], Jsonify (JsonError e) 500)).

End Api.

(* ================================================================== *)
(** * Reading the WHERE clause as SQL Server does *)
(* ================================================================== *)

Module Sql.

Inductive token := TLike | TPrice | TAnd | TOr.

(** The words of the clause, grouped into predicates and operators. *)
Fixpoint lex (words : list pystr) : option (list token) :=
  match words with
  | [] => Some []
  | w1 :: rest =>
      if pystr_eqb w1 (py "OR") then cons TOr <$> lex rest
      else if pystr_eqb w1 (py "AND") then cons TAnd <$> lex rest
      else
        match rest with
        | w2 :: w3 :: rest' =>
            if pystr_eqb w1 (py "Descri") && pystr_eqb w2 (py "LIKE")
               && pystr_eqb w3 (py "?")
            then cons TLike <$> lex rest'
            else if pystr_eqb w1 (py "PrecioFinal") && pystr_eqb w2 (py ">")
                    && pystr_eqb w3 (py "0")
            then cons TPrice <$> lex rest'
            else None
        | _ => None
        end
  end.

(** A predicate with its parameter bound. *)
Inductive atom := Like (pattern : pystr) | PricePositive.

(** A search condition: [AND] binds tighter than [OR], so a condition
    is a disjunction of conjunctions of predicates.  The placeholders
    take the parameters from left to right. *)
Fixpoint parse (tokens : list token) (params : list pystr)
  : option (list (list atom)) :=
  let continue (a : atom) (rest : list token) (ps : list pystr) :=
    match rest with
    | [] => Some [[a]]
    | TAnd :: rest' =>
        match parse rest' ps with
        | Some (c :: disj) => Some ((a :: c) :: disj)
        | _ => None
        end
    | TOr :: rest' =>
        match parse rest' ps with
        | Some disj => Some ([a] :: disj)
        | None => None
        end
    | _ => None
    end in
  match tokens with
  | TLike :: rest =>
      match params with
      | p :: ps => continue (Like p) rest ps
      | [] => None
      end
  | TPrice :: rest => continue PricePositive rest params
  | _ => None
  end.

Section Eval.
(** The server's [LIKE]: does the value of [Descri] match the
    pattern? *)
Variable like : pystr -> option pystr -> bool.

Definition price_positive (p : option Decimal) : bool :=
  match p with
  | Some d => 0 <? coefficient d
  | None => false
  end.

Definition holds (row : stock_row) (a : atom) : bool :=
  match a with
  | Like pattern => like pattern (row_descri row)
  | PricePositive => price_positive (row_precio row)
  end.

Definition eval (cond : list (list atom)) (row : stock_row) : bool :=
  existsb (forallb (holds row)) cond.

(** Does the row satisfy the clause, run with the parameters? *)
Definition selects (clause : pystr) (params : list pystr) (row : stock_row)
  : option bool :=
  tokens ← lex (split 32 clause);
  cond ← parse tokens params;
  Some (eval cond row).

(** What the clause is meant to be: some [LIKE] holds, and the price
    is positive. *)
Definition matches_and_priced (params : list pystr) (row : stock_row) : bool :=
  existsb (fun p => like p (row_descri row)) params
  && price_positive (row_precio row).
End Eval.

End Sql.

(* ================================================================== *)
(** * The operations as the specification words them *)
(* ================================================================== *)

Module Spec.

(** The longest prefix of [s] whose characters satisfy [p], and what
    follows it. *)
Fixpoint take_run (p : Z -> bool) (s : pystr) : pystr :=
  match s with
  | c :: s' => if p c then c :: take_run p s' else []
  | [] => []
  end.

Fixpoint drop_run (p : Z -> bool) (s : pystr) : pystr :=
  match s with
  | c :: s' => if p c then drop_run p s' else s
  | [] => []
  end.

(** The maximal runs of a text: consecutive characters on which [p]
    keeps one value, each run tagged with that value. *)
Fixpoint runs (p : Z -> bool) (s : pystr) : list (bool * pystr) :=
  match s with
  | [] => []
  | c :: s' =>
      match runs p s' with
      | (b, r) :: rest =>
          if eqb b (p c) then (b, c :: r) :: rest
          else (p c, [c]) :: (b, r) :: rest
      | [] => [(p c, [c])]
      end
  end.

(** The fixed table of accented characters. *)
Definition fold_accent (c : Z) : Z :=
  if c =? 225 then 97          (* á -> a *)
  else if c =? 233 then 101    (* é -> e *)
  else if c =? 237 then 105    (* í -> i *)
  else if c =? 243 then 111    (* ó -> o *)
  else if c =? 250 then 117    (* ú -> u *)
  else if c =? 241 then 110    (* ñ -> n *)
  else if c =? 252 then 117    (* ü -> u *)
  else c.

(** Every run of whitespace becomes one space. *)
Definition collapse_whitespace (s : pystr) : pystr :=
  flat_map (fun run : bool * pystr => if fst run then [32] else snd run)
           (runs isspace s).

(** Trailing whitespace removed. *)
Fixpoint trim_right (s : pystr) : pystr :=
  match s with
  | [] => []
  | c :: s' =>
      match trim_right s' with
      | [] => if isspace c then [] else [c]
      | r => c :: r
      end
  end.

(** Leading and trailing whitespace removed. *)
Definition trim (s : pystr) : pystr := trim_right (lstrip s).

Definition starts_with_space (s : pystr) : bool :=
  match s with c :: _ => isspace c | [] => false end.

(** Every whitespace character is a space, and no two are adjacent. *)
Fixpoint single_spaced (s : pystr) : bool :=
  match s with
  | [] => true
  | c :: s' =>
      (if isspace c then (c =? 32) && negb (starts_with_space s') else true)
      && single_spaced s'
  end.

(** No whitespace at either end. *)
Definition trimmed (s : pystr) : bool :=
  negb (starts_with_space s) && negb (starts_with_space (rev s)).

Definition stop_list : list pystr :=
  map py [ "de"; "la"; "el"; "en"; "con"; "para"; "por"; "un"; "una";
           "y"; "o"; "del"; "las"; "los" ]%string.

(** A token that survives: longer than 2 and not a stop-word. *)
Definition survives (t : pystr) : bool :=
  bool_decide (2 < length t)%nat && bool_decide (t ∉ stop_list).

(** The derived variant of a token: the trailing "s" stripped if the
    token ends in "s" and is longer than 3, otherwise "s" appended. *)
Definition variant (t : pystr) : pystr :=
  if bool_decide (last t = Some 115) && bool_decide (3 < length t)%nat
  then take (length t - 1) t
  else t ++ [115].

Section WithTables.
Context {db : UnicodeDB}.

Definition normalize (text : option pystr) : pystr :=
  match text with
  | None | Some [] => []
  | Some s => trim (collapse_whitespace (map fold_accent (lower s)))
  end.

(** The tokens of a text: its runs of alphanumeric characters and
    underscores. *)
Definition tokens (s : pystr) : list pystr :=
  map snd (List.filter fst (runs is_word s)).

(** The surviving tokens of a description. *)
Definition surviving (description : option pystr) : list pystr :=
  List.filter survives (tokens (normalize description)).

Definition extractKeywords (description : option pystr) : gset pystr :=
  list_to_set (flat_map (fun t => [t; variant t]) (surviving description)).
End WithTables.

(** The fixed-size batches of a list: [n] records each, the last one
    what remains. *)
Fixpoint batches_fuel {A} (fuel n : nat) (l : list A) : list (list A) :=
  match fuel, l with
  | S fuel', _ :: _ => take n l :: batches_fuel fuel' n (drop n l)
  | _, _ => []
  end.

Definition batches {A} (n : nat) (l : list A) : list (list A) :=
  batches_fuel (length l) n l.

End Spec.


(* ================================================================== *)
(** * Reading a run *)
(* ================================================================== *)

Definition is_http (e : event) : bool :=
  match e with
  | HttpDelete _ _ _ | HttpPost _ _ _ => true
  | _ => false
  end.

(** The calls to the mirror store made during a run, in order. *)
Definition http_calls (t : list event) : list event := List.filter is_http t.

(** The batches posted during a run, in order. *)
Fixpoint posted (t : list event) : list (list product) :=
  match t with
  | [] => []
  | HttpPost _ _ batch :: t' => batch :: posted t'
  | _ :: t' => posted t'
  end.

(** Did the insertion of a batch succeed? *)
Definition post_ok (o : outcome response) : bool :=
  match o with
  | Returns r => bool_decide (status_code r ∈ [200; 201; 204])
  | Raises _ => false
  end.

(** The calls the synchronisation makes to the mirror store. *)
Definition delete_call (cfg : config) : event :=
  HttpDelete (table_url cfg) (supabase_headers cfg)
             [(py "codigo", py "not.is.null")].

Definition post_call (cfg : config) (batch : list product) : event :=
  HttpPost (table_url cfg) (supabase_headers cfg) batch.

(** The products built from the rows read. *)
Definition products_of `{UnicodeDB} (w : world) (rows : list stock_row)
  : list product :=
  imap (fun k row => make_product w (S k) row) rows.

(** The message printed when the bulk delete is refused. *)
Definition delete_error_line (r : response) : pystr :=
  py "Error borrando registros Supabase: "
  ++ str_of_Z (status_code r) ++ py " " ++ text r.

(** The message printed after the last batch. *)
Definition completed_line (total_inserted : nat) : pystr :=
  py "Sincronizacion completada - " ++ str_of_nat total_inserted
  ++ py " productos actualizados.".

(** The result of a block whose exceptions are turned into [False]. *)
Definition succeeded (o : outcome bool) : bool :=
  match o with
  | Returns b => b
  | Raises _ => false
  end.

(** The same world with another outcome of the bulk delete. *)
Definition with_delete (w : world) (o : outcome response) : world :=
  {| now := now w;
     sql_connect := sql_connect w;
     sql_catalog := sql_catalog w;
     sql_search := sql_search w;
     http_delete := o;
     http_post := http_post w |}.

(** The batches that are attempted, the first being the [k]-th call:
    each in turn until one fails; and whether all succeeded. *)
Fixpoint attempted (post : nat -> list product -> outcome response) (k : nat)
         (batches : list (list product)) : list (list product) * bool :=
  match batches with
  | [] => ([], true)
  | b :: rest =>
      if post_ok (post k b)
      then let '(a, ok) := attempted post (S k) rest in (b :: a, ok)
      else ([b], false)
  end.

(* ================================================================== *)
(** * Concrete configurations and worlds *)
(* ================================================================== *)

Module Sample.

Definition cfg (api_token : option pystr) : config :=
  {| SQLSERVER_HOST := Some (py "sqlhost");
     SQLSERVER_DB := Some (py "obraseco");
     SQLSERVER_USER := Some (py "lector");
     SQLSERVER_PASS := Some (py "clave");
     SUPABASE_URL := Some (py "https://mirror.example");
     SUPABASE_KEY := Some (py "service-key");
     API_TOKEN := api_token |}.

Definition clock (n : nat) : datetime :=
  {| dt_str := py "2024-05-01 08:00:00.000000";
     dt_isoformat := py "2024-05-01T08:00:00.000000" |}.

Definition created : response := {| status_code := 201; text := [] |}.
Definition no_content : response := {| status_code := 204; text := [] |}.
Definition unavailable : response :=
  {| status_code := 503; text := py "Service Unavailable" |}.

Definition martillo : stock_row :=
  {| row_codigo := py "M-001";
     row_descri := Some (py "Martillo de Goma");
     row_precio := Some {| coefficient := 125050; exponent := -2 |} |}.

(** A hammer that is out of the price list. *)
Definition martillo_sin_precio : stock_row :=
  {| row_codigo := py "M-002";
     row_descri := Some (py "martillo bolita");
     row_precio := Some {| coefficient := 0; exponent := 0 |} |}.

Definition columns : list pystr := map py ["Codigo"; "Descri"; "PrecioFinal"]%string.

Definition as_values (row : stock_row) : list sqlval :=
  [ SqlStr (row_codigo row);
    from_option SqlStr SqlNull (row_descri row);
    from_option SqlDecimal SqlNull (row_precio row) ].

(** A world whose catalogue holds [rows], whose searches return [rows],
    whose bulk delete has the outcome [deleted] and whose k-th insert
    has the outcome [inserted k]. *)
Definition world_of (rows : list stock_row) (deleted : outcome response)
           (inserted : nat -> outcome response) : world :=
  {| now := clock;
     sql_connect := Returns tt;
     sql_catalog := fun _ => Returns rows;
     sql_search := fun _ _ => Returns (columns, map as_values rows);
     http_delete := deleted;
     http_post := fun k _ => inserted k |}.

(** The mirror store accepts everything. *)
Definition all_well (rows : list stock_row) : world :=
  world_of rows (Returns no_content) (fun _ => Returns created).

(** The mirror store refuses the second batch. *)
Definition second_batch_refused (rows : list stock_row) : world :=
  world_of rows (Returns no_content)
           (fun k => if (k =? 1)%nat then Returns unavailable
                     else Returns created).

(** The mirror store refuses the bulk delete. *)
Definition delete_refused (rows : list stock_row) : world :=
  world_of rows (Returns unavailable) (fun _ => Returns created).

(** The mirror store cannot be reached for the bulk delete. *)
Definition delete_unreachable (rows : list stock_row) : world :=
  world_of rows (Raises (py "Connection refused")) (fun _ => Returns created).

(** LIKE for a pattern ['%t%'] whose [t] has no wildcard, under a
    collation that tells letters apart by case: [t] occurs in the
    value. *)
Fixpoint occurs (t s : pystr) : bool :=
  startswith s t
  || match s with
     | [] => false
     | _ :: s' => occurs t s'
     end.

Definition like (pattern : pystr) (value : option pystr) : bool :=
  match value with
  | Some s => occurs (take (length pattern - 2) (drop 1 pattern)) s
  | None => false
  end.

End Sample.

(* ================================================================== *)
(** * The terms of a request, the log of a failure, the start-up *)
(* ================================================================== *)

(** The list [terms] that [search_multi] builds from the trimmed query. *)
Definition parse_terms (query_param : pystr) : list pystr :=
  map strip
      (List.filter (fun t => truthy (Some (strip t))) (split 44 query_param)).

(** A term as a caller would write it: not empty, no whitespace at
    either end, no comma. *)
Definition clean_term (t : pystr) : Prop :=
  t <> [] /\ strip t = t /\ Forall (fun c => c <> 44) t.

Definition not_space (c : Z) : bool := negb (isspace c).

(** The five vowels the [except] block of the synchronisation replaces
    in the message it prints. *)
Definition plain_vowel (c : Z) : Z :=
  if c =? 243 then 111         (* ó -> o *)
  else if c =? 237 then 105    (* í -> i *)
  else if c =? 225 then 97     (* á -> a *)
  else if c =? 233 then 101    (* é -> e *)
  else if c =? 250 then 117    (* ú -> u *)
  else c.

(** The line the [except] block prints for an exception. *)
Definition failure_line (e : pystr) : pystr :=
  py "Error en sincronizacion: " ++ map plain_vowel e.

(** The lines a run prints, in order. *)
Definition printed (t : list event) : list pystr :=
  flat_map (fun e => match e with Print line => [line] | _ => [] end) t.

(** The lines of a synchronisation that goes as planned. *)
Definition started_line (w : world) : pystr :=
  py "Iniciando sincronizacion del catalogo - " ++ dt_str (now w 0).

Definition read_line (n : nat) : pystr :=
  py "Productos leidos desde SQL Server: " ++ str_of_nat n.

(** The lines of the [k]-th batch, counted from 0. *)
Definition batch_line (k : nat) (batch : list product) : pystr :=
  py "Lote " ++ str_of_nat (k + 1) ++ py ": " ++ str_of_nat (length batch)
  ++ py " productos insertados.".

Definition batch_error_line (k : nat) (r : response) : pystr :=
  py "Error en lote " ++ str_of_nat (k + 1) ++ py ": "
  ++ str_of_Z (status_code r) ++ py " " ++ text r.

(** A world whose database refuses the connection. *)
Definition database_down (msg : pystr) : world :=
  {| now := Sample.clock;
     sql_connect := Raises msg;
     sql_catalog := fun _ => Raises msg;
     sql_search := fun _ _ => Raises msg;
     http_delete := Returns Sample.no_content;
     http_post := fun _ _ => Returns Sample.created |}.

Module Boot.

(** What the top level of a module does when it is loaded. *)
Inductive target := RunSyncInThread | RunSchedulerInThread.

Inductive step :=
| Say (line : pystr)
| ThreadStart (fn : target) (daemon : bool)
| AppRun (host : pystr) (port : Z).

(** [all([sql_host, sql_db, sql_user, sql_pass])] *)
Definition sql_configured (cfg : config) : bool :=
  forallb truthy
    [SQLSERVER_HOST cfg; SQLSERVER_DB cfg; SQLSERVER_USER cfg; SQLSERVER_PASS cfg].

(** The statements both modules run after their definitions. *)
Definition launch (cfg : config) : list step :=
  Say (py "Iniciando aplicación...")
  :: (if truthy (SUPABASE_URL cfg) && truthy (SUPABASE_KEY cfg)
      then [ThreadStart RunSyncInThread false;
            ThreadStart RunSchedulerInThread true]
      else [Say (py "Supabase no configurado - Solo búsqueda disponible.")]).

Definition serve : step := AppRun (py "0.0.0.0") 5000.

(** The top level of [app.py]; [main] tells whether it is the program
    ([python app.py]) or an imported module. *)
Definition app_py (main : bool) (cfg : config) : outcome (list step) :=
  if sql_configured cfg then
    Returns (launch cfg ++ (if main then [serve] else []))
  else
    Raises (py "Faltan variables de entorno necesarias para la conexión SQL Server.").

(** The top level of [start.py]: it imports [app], then launches and
    serves. *)
Definition start_py (cfg : config) : outcome (list step) :=
  match app_py false cfg with
  | Returns imported => Returns (imported ++ launch cfg ++ [serve])
  | Raises e => Raises e
  end.

(** How many threads a start-up starts on [fn]. *)
Definition started (fn : target) (steps : list step) : nat :=
  length (List.filter
            (fun s => match s, fn with
                      | ThreadStart RunSyncInThread _, RunSyncInThread => true
                      | ThreadStart RunSchedulerInThread _, RunSchedulerInThread => true
                      | _, _ => false
                      end) steps).

End Boot.

(* ================================================================== *)
(** * Facts about the string operations *)
(* ================================================================== *)

Section StringFacts.

(** Case analysis of a character against the table of accents. *)
Ltac by_table c :=
  destruct (Z.eq_dec c 225) as [->|?]; [reflexivity|];
  destruct (Z.eq_dec c 233) as [->|?]; [reflexivity|];
  destruct (Z.eq_dec c 237) as [->|?]; [reflexivity|];
  destruct (Z.eq_dec c 243) as [->|?]; [reflexivity|];
  destruct (Z.eq_dec c 250) as [->|?]; [reflexivity|];
  destruct (Z.eq_dec c 241) as [->|?]; [reflexivity|];
  destruct (Z.eq_dec c 252) as [->|?]; [reflexivity|];
  repeat (rewrite (proj2 (Z.eqb_neq c _)) by assumption);
  try reflexivity.

Lemma startswith_nil s : startswith s [] = true.
Proof. destruct s; reflexivity. Qed.

Lemma replace_go_char a b s :
  replace_go [a] [b] 0 s = map (fun c => if c =? a then b else c) s.
Proof.
  induction s as [|c s IH]; simpl; [reflexivity|].
  rewrite startswith_nil, (Z.eqb_sym a c), andb_true_r.
  destruct (c =? a); simpl; now rewrite IH.
Qed.

Lemma replacements_codes :
  replacements
  = [ ([225], [97]); ([233], [101]); ([237], [105]); ([243], [111]);
      ([250], [117]); ([241], [110]); ([252], [117]) ].
Proof. vm_compute. reflexivity. Qed.

(** Replacing the seven characters one after the other is one pass
    through the table. *)
Lemma replacements_fold s :
  foldl (fun text '(old, new) => str_replace old new text) s replacements
  = map Spec.fold_accent s.
Proof.
  rewrite replacements_codes. simpl. unfold str_replace.
  rewrite !replace_go_char, !map_map.
  apply map_ext. intros c. unfold Spec.fold_accent. by_table c.
Qed.

Lemma fold_accent_cases c :
  Spec.fold_accent c = c
  \/ In (Spec.fold_accent c) [97; 101; 105; 111; 117; 110].
Proof.
  destruct (Z.eq_dec c 225) as [->|?]; [right; simpl; tauto|];
  destruct (Z.eq_dec c 233) as [->|?]; [right; simpl; tauto|];
  destruct (Z.eq_dec c 237) as [->|?]; [right; simpl; tauto|];
  destruct (Z.eq_dec c 243) as [->|?]; [right; simpl; tauto|];
  destruct (Z.eq_dec c 250) as [->|?]; [right; simpl; tauto|];
  destruct (Z.eq_dec c 241) as [->|?]; [right; simpl; tauto|];
  destruct (Z.eq_dec c 252) as [->|?]; [right; simpl; tauto|].
  left. unfold Spec.fold_accent.
  now repeat (rewrite (proj2 (Z.eqb_neq c _)) by assumption).
Qed.

Lemma fold_accent_idem c :
  Spec.fold_accent (Spec.fold_accent c) = Spec.fold_accent c.
Proof.
  unfold Spec.fold_accent. by_table c.
Qed.

End StringFacts.

(* ================================================================== *)
(** * Runs, whitespace and trimming *)
(* ================================================================== *)

Section Whitespace.

Lemma runs_head p c s :
  exists r rest, Spec.runs p (c :: s) = (p c, c :: r) :: rest.
Proof.
  revert c. induction s as [|d s IH]; intros c; simpl.
  - eauto.
  - destruct (IH d) as (r & rest & E). simpl in E. rewrite E.
    destruct (eqb (p d) (p c)) eqn:Hb.
    + apply eqb_prop in Hb. rewrite Hb. eauto.
    + eauto.
Qed.

(** The first run of a text and the runs after it. *)
Lemma runs_cons p c s :
  Spec.runs p (c :: s)
  = (p c, c :: Spec.take_run (fun x => eqb (p x) (p c)) s)
      :: Spec.runs p (Spec.drop_run (fun x => eqb (p x) (p c)) s).
Proof.
  revert c. induction s as [|d s IH]; intros c; [reflexivity|].
  change (Spec.runs p (c :: d :: s))
    with (match Spec.runs p (d :: s) with
          | (b, r) :: rest =>
              if eqb b (p c) then (b, c :: r) :: rest
              else (p c, [c]) :: (b, r) :: rest
          | [] => [(p c, [c])]
          end).
  rewrite (IH d). cbn [Spec.take_run Spec.drop_run].
  destruct (eqb (p d) (p c)) eqn:Hb.
  - apply eqb_prop in Hb. rewrite Hb. reflexivity.
  - rewrite <- (IH d). reflexivity.
Qed.

Lemma collapse_nil : Spec.collapse_whitespace [] = [].
Proof. reflexivity. Qed.

Lemma collapse_cons_other c s :
  isspace c = false ->
  Spec.collapse_whitespace (c :: s) = c :: Spec.collapse_whitespace s.
Proof.
  intros Hc. unfold Spec.collapse_whitespace. simpl.
  destruct s as [|d s]; simpl; [now rewrite Hc|].
  destruct (runs_head isspace d s) as (r & rest & E).
  simpl in E. rewrite E, Hc.
  destruct (isspace d); simpl; now rewrite ?Hc.
Qed.

Lemma collapse_cons_space c s :
  isspace c = true ->
  Spec.collapse_whitespace (c :: s) = 32 :: Spec.collapse_whitespace (lstrip s).
Proof.
  intros Hc. induction s as [|d s IH].
  - unfold Spec.collapse_whitespace. simpl. now rewrite Hc.
  - simpl lstrip. destruct (isspace d) eqn:Hd.
    + rewrite <- IH. unfold Spec.collapse_whitespace.
      change (Spec.runs isspace (c :: d :: s))
        with (match Spec.runs isspace (d :: s) with
              | (b, r) :: rest =>
                  if eqb b (isspace c) then (b, c :: r) :: rest
                  else (isspace c, [c]) :: (b, r) :: rest
              | [] => [(isspace c, [c])]
              end).
      rewrite !(runs_cons isspace _ s), Hc, Hd. reflexivity.
    + unfold Spec.collapse_whitespace.
      change (Spec.runs isspace (c :: d :: s))
        with (match Spec.runs isspace (d :: s) with
              | (b, r) :: rest =>
                  if eqb b (isspace c) then (b, c :: r) :: rest
                  else (isspace c, [c]) :: (b, r) :: rest
              | [] => [(isspace c, [c])]
              end).
      destruct (runs_head isspace d s) as (r & rest & E).
      rewrite E, Hc, Hd. reflexivity.
Qed.

Lemma lstrip_length s : (length (lstrip s) <= length s)%nat.
Proof.
  induction s as [|c s IH]; simpl; [lia|].
  destruct (isspace c); simpl; lia.
Qed.

Lemma sub_spaces_skip repl n s :
  sub_spaces_go repl n s = sub_spaces_go repl 0 (drop n s).
Proof.
  revert n. induction s as [|c s IH]; intros [|n]; try reflexivity.
  simpl. apply IH.
Qed.

Lemma drop_match_spaces s : drop (match_spaces s) s = lstrip s.
Proof.
  induction s as [|c s IH]; simpl; [reflexivity|].
  destruct (isspace c); simpl; [apply IH | reflexivity].
Qed.

Lemma re_sub_spaces_cons_space repl c s :
  isspace c = true ->
  re_sub_spaces repl (c :: s) = repl ++ re_sub_spaces repl (lstrip s).
Proof.
  intros Hc. unfold re_sub_spaces. simpl. rewrite Hc.
  now rewrite sub_spaces_skip, drop_match_spaces.
Qed.

Lemma re_sub_spaces_cons_other repl c s :
  isspace c = false ->
  re_sub_spaces repl (c :: s) = c :: re_sub_spaces repl s.
Proof. intros Hc. unfold re_sub_spaces. simpl. now rewrite Hc. Qed.

(** [re.sub(r'\s+', ' ', s)] turns every run of whitespace into one
    space. *)
Lemma re_sub_spaces_collapse s :
  re_sub_spaces [32] s = Spec.collapse_whitespace s.
Proof.
  remember (length s) as n eqn:Hn.
  assert (Hle : (length s <= n)%nat) by lia. clear Hn.
  revert s Hle. induction n as [|n IH]; intros [|c s] Hle;
    try reflexivity; simpl in Hle; [lia|].
  destruct (isspace c) eqn:Hc.
  - rewrite re_sub_spaces_cons_space, collapse_cons_space by assumption.
    simpl. f_equal. apply IH. pose proof (lstrip_length s). lia.
  - rewrite re_sub_spaces_cons_other, collapse_cons_other by assumption.
    f_equal. apply IH. lia.
Qed.

Lemma lstrip_app a b :
  lstrip (a ++ b) = match lstrip a with [] => lstrip b | r => r ++ b end.
Proof.
  induction a as [|c a IH]; simpl; [now destruct (lstrip b)|].
  destruct (isspace c); [apply IH | reflexivity].
Qed.

Lemma rstrip_cons c s :
  rstrip (c :: s)
  = match rstrip s with
    | [] => if isspace c then [] else [c]
    | r => c :: r
    end.
Proof.
  unfold rstrip. simpl. rewrite lstrip_app.
  destruct (lstrip (rev s)) as [|x l] eqn:E; simpl.
  - destruct (isspace c); reflexivity.
  - rewrite rev_app_distr. simpl.
    destruct (rev l ++ [x]) eqn:E2; [|reflexivity].
    now destruct (rev l).
Qed.

(** [s.strip()] removes the leading and the trailing whitespace. *)
Lemma strip_trim s : strip s = Spec.trim s.
Proof.
  unfold strip, Spec.trim. generalize (lstrip s). clear s.
  intros s. induction s as [|c s IH]; [reflexivity|].
  rewrite rstrip_cons, IH. reflexivity.
Qed.

End Whitespace.

(* ================================================================== *)
(** * normalize_text *)
(* ================================================================== *)

Section Normalize.

(** Induction along the way whitespace is collapsed. *)
Lemma collapse_ind (Q : pystr -> pystr -> Prop) :
  Q [] [] ->
  (forall c s, isspace c = true ->
     Q (lstrip s) (Spec.collapse_whitespace (lstrip s)) ->
     Q (c :: s) (32 :: Spec.collapse_whitespace (lstrip s))) ->
  (forall c s, isspace c = false ->
     Q s (Spec.collapse_whitespace s) ->
     Q (c :: s) (c :: Spec.collapse_whitespace s)) ->
  forall s, Q s (Spec.collapse_whitespace s).
Proof.
  intros Hnil Hsp Hot s.
  remember (length s) as n eqn:Hn.
  assert (Hle : (length s <= n)%nat) by lia. clear Hn.
  revert s Hle. induction n as [|n IH]; intros [|c s] Hle;
    try exact Hnil; simpl in Hle; [lia|].
  destruct (isspace c) eqn:Hc.
  - rewrite collapse_cons_space by assumption. apply Hsp; [assumption|].
    apply IH. pose proof (lstrip_length s). lia.
  - rewrite collapse_cons_other by assumption. apply Hot; [assumption|].
    apply IH. lia.
Qed.

Lemma lstrip_starts s : Spec.starts_with_space (lstrip s) = false.
Proof.
  induction s as [|c s IH]; simpl; [reflexivity|].
  destruct (isspace c) eqn:Hc; simpl; [apply IH | exact Hc].
Qed.

Lemma lstrip_id s : Spec.starts_with_space s = false -> lstrip s = s.
Proof. destruct s as [|c s]; simpl; [reflexivity|]. now intros ->. Qed.

Lemma collapse_starts s :
  Spec.starts_with_space (Spec.collapse_whitespace s)
  = Spec.starts_with_space s.
Proof.
  destruct s as [|c s]; [reflexivity|]. destruct (isspace c) eqn:Hc.
  - rewrite collapse_cons_space by assumption. simpl. now rewrite Hc.
  - rewrite collapse_cons_other by assumption. reflexivity.
Qed.

Lemma collapse_single_spaced s :
  Spec.single_spaced (Spec.collapse_whitespace s) = true.
Proof.
  apply (collapse_ind (fun _ r => Spec.single_spaced r = true)).
  - reflexivity.
  - intros c t Hc IH. simpl. rewrite IH, collapse_starts, lstrip_starts.
    reflexivity.
  - intros c t Hc IH. simpl. now rewrite Hc, IH.
Qed.

Lemma single_spaced_collapse s :
  Spec.single_spaced s = true -> Spec.collapse_whitespace s = s.
Proof.
  induction s as [|c s IH]; [reflexivity|]. simpl. intros H.
  apply andb_prop in H as [Hc Hs]. destruct (isspace c) eqn:E.
  - apply andb_prop in Hc as [Hc32 Hhd].
    apply Z.eqb_eq in Hc32. apply negb_true_iff in Hhd.
    rewrite collapse_cons_space, (lstrip_id _ Hhd), (IH Hs) by assumption.
    now subst.
  - rewrite collapse_cons_other, (IH Hs) by assumption. reflexivity.
Qed.

Lemma single_spaced_tail c s :
  Spec.single_spaced (c :: s) = true -> Spec.single_spaced s = true.
Proof. simpl. intros H. now apply andb_prop in H. Qed.

Lemma single_spaced_lstrip s :
  Spec.single_spaced s = true -> Spec.single_spaced (lstrip s) = true.
Proof.
  induction s as [|c s IH]; [reflexivity|]. intros H. simpl lstrip.
  destruct (isspace c); [|exact H].
  apply IH. exact (single_spaced_tail _ _ H).
Qed.

Lemma trim_right_cons c s :
  Spec.trim_right (c :: s) = []
  \/ exists r, Spec.trim_right (c :: s) = c :: r /\ Spec.trim_right s = r.
Proof.
  simpl. destruct (Spec.trim_right s) eqn:E.
  - destruct (isspace c); eauto.
  - eauto.
Qed.

Lemma trim_right_starts s :
  Spec.trim_right s <> [] ->
  Spec.starts_with_space (Spec.trim_right s) = Spec.starts_with_space s.
Proof.
  destruct s as [|c s]; [reflexivity|]. intros Hne.
  destruct (trim_right_cons c s) as [E|(r & E & _)]; [congruence|].
  now rewrite E.
Qed.

Lemma single_spaced_trim_right s :
  Spec.single_spaced s = true -> Spec.single_spaced (Spec.trim_right s) = true.
Proof.
  induction s as [|c s IH]; [reflexivity|]. intros H.
  pose proof (IH (single_spaced_tail _ _ H)) as IH'.
  simpl in H. apply andb_prop in H as [Hc _].
  simpl. destruct (Spec.trim_right s) as [|d r] eqn:E.
  - destruct (isspace c) eqn:Hsp; [reflexivity|]. simpl. now rewrite Hsp.
  - change (Spec.single_spaced (c :: d :: r))
      with ((if isspace c
             then (c =? 32) && negb (Spec.starts_with_space (d :: r))
             else true) && Spec.single_spaced (d :: r)).
    rewrite IH', andb_true_r.
    destruct (isspace c); [|reflexivity].
    rewrite <- E, trim_right_starts by (rewrite E; discriminate).
    exact Hc.
Qed.

Lemma trim_right_idem s :
  Spec.trim_right (Spec.trim_right s) = Spec.trim_right s.
Proof.
  induction s as [|c s IH]; [reflexivity|]. simpl.
  destruct (Spec.trim_right s) as [|d r] eqn:E.
  - destruct (isspace c) eqn:Hc; [reflexivity|]. simpl. now rewrite Hc.
  - change (Spec.trim_right (c :: d :: r))
      with (match Spec.trim_right (d :: r) with
            | [] => if isspace c then [] else [c]
            | r' => c :: r'
            end).
    now rewrite IH.
Qed.

Lemma trim_idem s : Spec.trim (Spec.trim s) = Spec.trim s.
Proof.
  unfold Spec.trim at 1. rewrite lstrip_id.
  - unfold Spec.trim. apply trim_right_idem.
  - unfold Spec.trim. destruct (Spec.trim_right (lstrip s)) eqn:E;
      [reflexivity|].
    rewrite <- E, trim_right_starts by (rewrite E; discriminate).
    apply lstrip_starts.
Qed.

Lemma single_spaced_trim s :
  Spec.single_spaced s = true -> Spec.single_spaced (Spec.trim s) = true.
Proof.
  intros H. now apply single_spaced_trim_right, single_spaced_lstrip.
Qed.

(** The characters of a normalised text come from the text, or are the
    space. *)
Lemma Forall_collapse (P : Z -> Prop) s :
  P 32 -> Forall P s -> Forall P (Spec.collapse_whitespace s).
Proof.
  intros H32.
  apply (collapse_ind (fun s r => Forall P s -> Forall P r)).
  - auto.
  - intros c t _ IH H. constructor; [assumption|]. apply IH.
    apply Forall_inv_tail in H. clear IH.
    induction t as [|d t IHt]; [constructor|]. simpl.
    destruct (isspace d); [|assumption].
    apply IHt. now apply Forall_inv_tail in H.
  - intros c t _ IH H. constructor.
    + now apply Forall_inv in H.
    + apply IH. now apply Forall_inv_tail in H.
Qed.

Lemma Forall_lstrip (P : Z -> Prop) s : Forall P s -> Forall P (lstrip s).
Proof.
  induction s as [|c s IH]; [auto|]. intros H. simpl.
  destruct (isspace c); [|assumption].
  apply IH. now apply Forall_inv_tail in H.
Qed.

Lemma Forall_trim_right (P : Z -> Prop) s :
  Forall P s -> Forall P (Spec.trim_right s).
Proof.
  induction s as [|c s IH]; [auto|]. intros H. simpl.
  pose proof (IH (Forall_inv_tail H)) as IH'.
  pose proof (Forall_inv H) as Hc.
  destruct (Spec.trim_right s).
  - destruct (isspace c); auto.
  - auto.
Qed.

Lemma Forall_trim (P : Z -> Prop) s : Forall P s -> Forall P (Spec.trim s).
Proof. intros H. now apply Forall_trim_right, Forall_lstrip. Qed.

Lemma trim_trimmed s : Spec.trimmed (Spec.trim s) = true.
Proof.
  unfold Spec.trimmed. apply andb_true_intro. split; apply negb_true_iff.
  - unfold Spec.trim. destruct (Spec.trim_right (lstrip s)) eqn:E;
      [reflexivity|].
    rewrite <- E, trim_right_starts by (rewrite E; discriminate).
    apply lstrip_starts.
  - rewrite <- strip_trim. unfold strip, rstrip. rewrite rev_involutive.
    apply lstrip_starts.
Qed.

Context {db : UnicodeDB}.

(** [normalize_text] is the normalisation of the specification. *)
Lemma normalize_text_normalize text :
  normalize_text text = Spec.normalize text.
Proof.
  destruct text as [[|c s]|]; try reflexivity.
  unfold normalize_text, Spec.normalize.
  rewrite replacements_fold, strip_trim.
  change (py " ") with [32]. now rewrite re_sub_spaces_collapse.
Qed.

Lemma normalize_tidy text :
  Spec.single_spaced (Spec.normalize text) = true
  /\ Spec.trimmed (Spec.normalize text) = true.
Proof.
  destruct text as [[|c s]|]; try (split; reflexivity).
  split.
  - apply single_spaced_trim, collapse_single_spaced.
  - apply trim_trimmed.
Qed.

Lemma normalize_idem `{!LowerStable db} text :
  Spec.normalize (Some (Spec.normalize text)) = Spec.normalize text.
Proof.
  destruct (Spec.normalize text) as [|c0 s0] eqn:E; [reflexivity|].
  rewrite <- E. clear c0 s0 E.
  destruct text as [[|c s]|]; try reflexivity.
  set (r := Spec.normalize (Some (c :: s))).
  assert (Hkeep : Forall lower_keeps r).
  { apply Forall_trim, Forall_collapse.
    - pose proof lower_plain as Hp.
      rewrite !Forall_cons in Hp. tauto.
    - apply List.Forall_forall. intros x Hx.
      apply in_map_iff in Hx as (y & <- & Hy).
      pose proof (lower_produces (c :: s)) as Hl.
      rewrite List.Forall_forall in Hl. specialize (Hl y Hy).
      destruct (fold_accent_cases y) as [->|Hin]; [exact Hl|].
      pose proof lower_plain as Hp. rewrite List.Forall_forall in Hp.
      apply Hp. simpl in *. tauto. }
  assert (Hfold : map Spec.fold_accent r = r).
  { assert (Hf : Forall (fun x => Spec.fold_accent x = x) r).
    { apply Forall_trim, Forall_collapse; [reflexivity|].
      apply List.Forall_forall. intros x Hx.
      apply in_map_iff in Hx as (y & <- & Hy). apply fold_accent_idem. }
    clearbody r. clear - Hf. induction Hf; simpl; [reflexivity|]. congruence. }
  destruct (normalize_tidy (Some (c :: s))) as [Hsp _]. fold r in Hsp.
  unfold Spec.normalize at 1. fold r.
  destruct r as [|c1 r1] eqn:Er; [reflexivity|]. rewrite <- Er in *.
  rewrite (lower_fixes _ Hkeep), Hfold, (single_spaced_collapse _ Hsp).
  unfold r, Spec.normalize. apply trim_idem.
Qed.

End Normalize.

(* ================================================================== *)
(** * Tokens and keywords *)
(* ================================================================== *)

Section Keywords.
Context {db : UnicodeDB}.

Lemma take_run_ext p q s :
  (forall x, p x = q x) -> Spec.take_run p s = Spec.take_run q s.
Proof.
  intros E. induction s as [|c s IH]; simpl; [reflexivity|].
  now rewrite E, IH.
Qed.

Lemma drop_run_ext p q s :
  (forall x, p x = q x) -> Spec.drop_run p s = Spec.drop_run q s.
Proof.
  intros E. induction s as [|c s IH]; simpl; [reflexivity|].
  now rewrite E, IH.
Qed.

Lemma take_take_run p s : take (length (Spec.take_run p s)) s = Spec.take_run p s.
Proof.
  induction s as [|c s IH]; simpl; [reflexivity|].
  destruct (p c); simpl; [now rewrite IH | reflexivity].
Qed.

Lemma drop_take_run p s : drop (length (Spec.take_run p s)) s = Spec.drop_run p s.
Proof.
  induction s as [|c s IH]; simpl; [reflexivity|].
  destruct (p c); simpl; [apply IH | reflexivity].
Qed.

Lemma drop_run_idem p s :
  Spec.drop_run p (Spec.drop_run p s) = Spec.drop_run p s.
Proof.
  induction s as [|c s IH]; simpl; [reflexivity|].
  destruct (p c) eqn:E; [apply IH|]. simpl. now rewrite E.
Qed.

Lemma drop_run_length p s : (length (Spec.drop_run p s) <= length s)%nat.
Proof.
  induction s as [|c s IH]; simpl; [lia|].
  destruct (p c); simpl; lia.
Qed.

Lemma tokens_nil : Spec.tokens [] = [].
Proof. reflexivity. Qed.

(** A token starts at a word character and extends over the run of
    word characters that follows. *)
Lemma tokens_cons_word c s :
  is_word c = true ->
  Spec.tokens (c :: s)
  = (c :: Spec.take_run is_word s) :: Spec.tokens (Spec.drop_run is_word s).
Proof.
  intros Hc. unfold Spec.tokens. rewrite runs_cons, Hc. simpl.
  rewrite (take_run_ext _ is_word), (drop_run_ext _ is_word);
    [reflexivity | |]; intros x; now destruct (is_word x).
Qed.

Lemma tokens_cons_other c s :
  is_word c = false -> Spec.tokens (c :: s) = Spec.tokens s.
Proof.
  intros Hc. unfold Spec.tokens. simpl.
  destruct (Spec.runs is_word s) as [|[b r] rest]; simpl;
    rewrite Hc; [reflexivity|].
  destruct b; reflexivity.
Qed.

Lemma match_word_rest_run c s :
  is_word c = true ->
  match_word_rest c s = Some (length (Spec.take_run is_word s)).
Proof.
  revert c. induction s as [|d s IH]; intros c Hc; simpl.
  - unfold word_boundary. simpl. now rewrite Hc.
  - destruct (is_word d) eqn:Hd.
    + now rewrite (IH d Hd).
    + unfold word_boundary. simpl. now rewrite Hc, Hd.
Qed.

Lemma findall_skip n s prev :
  is_word prev = true ->
  (n <= length (Spec.take_run is_word s))%nat ->
  exists q, is_word q = true
            /\ findall_go (Some prev) n s = findall_go (Some q) 0 (drop n s).
Proof.
  revert n prev. induction s as [|c s IH]; intros n prev Hp Hn.
  - simpl in Hn. assert (n = 0)%nat as -> by lia. eauto.
  - destruct n as [|n]; [eauto|].
    simpl in Hn. destruct (is_word c) eqn:Hc; simpl in Hn; [|lia].
    simpl. apply IH; [assumption | lia].
Qed.

Lemma findall_go_tokens s prev :
  findall_go prev 0 s
  = if is_word_opt prev then Spec.tokens (Spec.drop_run is_word s)
    else Spec.tokens s.
Proof.
  remember (length s) as n eqn:Hn.
  assert (Hle : (length s <= n)%nat) by lia. clear Hn.
  revert s Hle prev. induction n as [|n IH]; intros [|c s] Hle prev;
    try (destruct (is_word_opt prev); reflexivity); simpl in Hle; [lia|].
  assert (Hs : (length s <= n)%nat) by lia.
  simpl findall_go. unfold word_boundary.
  change (is_word_opt (Some c)) with (is_word c).
  destruct (is_word_opt prev) eqn:Hp, (is_word c) eqn:Hc; simpl.
  - rewrite Hc, (IH s Hs). simpl. now rewrite Hc.
  - rewrite Hc, (IH s Hs). simpl. rewrite Hc.
    now rewrite tokens_cons_other.
  - rewrite (match_word_rest_run _ _ Hc), tokens_cons_word by assumption.
    rewrite take_take_run. f_equal.
    destruct (findall_skip (length (Spec.take_run is_word s)) s c Hc)
      as (q & Hq & ->); [lia|].
    rewrite drop_take_run, IH.
    + simpl. now rewrite Hq, drop_run_idem.
    + pose proof (drop_run_length is_word s). lia.
  - rewrite (IH s Hs). simpl. rewrite Hc.
    now rewrite tokens_cons_other.
Qed.

(** [re.findall(r'\b\w+\b', s)] gives the runs of word characters. *)
Lemma re_findall_words_tokens s : re_findall_words s = Spec.tokens s.
Proof. unfold re_findall_words. now rewrite findall_go_tokens. Qed.

Lemma stop_words_list w : w ∈ stop_words <-> w ∈ Spec.stop_list.
Proof. unfold stop_words, Spec.stop_list. apply elem_of_list_to_set. Qed.

Lemma is_keyword_survives w : is_keyword w = Spec.survives w.
Proof.
  unfold is_keyword, Spec.survives. f_equal.
  - destruct (Nat.ltb_spec 2 (length w));
      [rewrite bool_decide_eq_true_2 | rewrite bool_decide_eq_false_2];
      auto; lia.
  - destruct (bool_decide (w ∈ stop_words)) eqn:E; simpl; symmetry.
    + apply bool_decide_eq_true in E. apply bool_decide_eq_false.
      intros H. apply H. now apply stop_words_list.
    + apply bool_decide_eq_false in E. apply bool_decide_eq_true.
      intros H. apply E. now apply stop_words_list.
Qed.

Lemma endswith_s w : endswith w [115] = bool_decide (last w = Some 115).
Proof.
  unfold endswith. destruct w as [|x l] using rev_ind; [reflexivity|].
  rewrite rev_app_distr, last_snoc.
  change (startswith (rev [x] ++ rev l) (rev [115]))
    with ((115 =? x) && startswith (rev l) []).
  rewrite startswith_nil, andb_true_r.
  destruct (Z.eqb_spec 115 x) as [<-|Hne].
  - now rewrite bool_decide_eq_true_2.
  - rewrite bool_decide_eq_false_2; [reflexivity|]. congruence.
Qed.

Lemma removelast_take (w : pystr) : removelast w = take (length w - 1) w.
Proof.
  destruct w as [|x l] using rev_ind; [reflexivity|].
  rewrite removelast_last, length_app. simpl.
  replace (length l + 1 - 1)%nat with (length l) by lia.
  now rewrite take_app_length.
Qed.

Lemma add_variant_variant (extended : gset pystr) w :
  add_variant extended w = extended ∪ {[ Spec.variant w ]}.
Proof.
  unfold add_variant, Spec.variant. change (py "s") with [115].
  rewrite endswith_s, removelast_take.
  destruct (Nat.ltb_spec 3 (length w)).
  - rewrite (bool_decide_eq_true_2 (3 < length w)%nat) by assumption.
    now destruct (bool_decide (last w = Some 115)).
  - rewrite (bool_decide_eq_false_2 (3 < length w)%nat) by lia.
    now destruct (bool_decide (last w = Some 115)).
Qed.

Lemma foldl_add_variant (extended : gset pystr) ws :
  foldl add_variant extended ws
  = extended ∪ list_to_set (map Spec.variant ws).
Proof.
  revert extended. induction ws as [|w ws IH]; intros extended; simpl.
  - set_solver.
  - rewrite IH, add_variant_variant. set_solver.
Qed.

Lemma with_variants_set (ws : list pystr) :
  (list_to_set (flat_map (fun t => [t; Spec.variant t]) ws) : gset pystr)
  = list_to_set ws ∪ list_to_set (map Spec.variant ws).
Proof. induction ws as [|w ws IH]; simpl; set_solver. Qed.

Lemma filter_ext_eq {A} (f g : A -> bool) l :
  (forall x, f x = g x) -> List.filter f l = List.filter g l.
Proof.
  intros E. induction l as [|x l IH]; simpl; [reflexivity|].
  now rewrite E, IH.
Qed.

(** [extract_keywords] builds the set the specification describes. *)
Lemma extract_keywords_extractKeywords description :
  extract_keywords description = Spec.extractKeywords description.
Proof.
  destruct description as [[|c s]|]; try reflexivity.
  unfold extract_keywords, Spec.extractKeywords, Spec.surviving.
  rewrite foldl_add_variant, with_variants_set.
  rewrite re_findall_words_tokens, normalize_text_normalize.
  now rewrite (filter_ext_eq _ _ _ is_keyword_survives).
Qed.

Lemma size_list_to_set_le (l : list pystr) :
  (size (list_to_set l : gset pystr) <= length l)%nat.
Proof.
  induction l as [|x l IH].
  - rewrite list_to_set_nil, size_empty. reflexivity.
  - rewrite list_to_set_cons, size_union_alt, size_singleton. cbn [length].
    pose proof (subseteq_size (list_to_set l ∖ {[x]}) (list_to_set l : gset pystr)) as H.
    assert ((list_to_set l ∖ {[x]} : gset pystr) ⊆ list_to_set l) by set_solver.
    specialize (H ltac:(assumption)). lia.
Qed.

Lemma extractKeywords_size description :
  (size (Spec.extractKeywords description)
   <= 2 * length (Spec.surviving description))%nat.
Proof.
  unfold Spec.extractKeywords.
  etransitivity; [apply size_list_to_set_le|].
  generalize (Spec.surviving description). intros l.
  induction l as [|x l IH]; simpl; lia.
Qed.

End Keywords.

(* ================================================================== *)
(** * The Latin-1 tables *)
(* ================================================================== *)

Lemma latin1_lower_char_idem c :
  latin1_lower_char (latin1_lower_char c) = latin1_lower_char c.
Proof.
  unfold latin1_lower_char.
  destruct (Z.leb_spec 65 c), (Z.leb_spec c 90), (Z.leb_spec 192 c),
    (Z.leb_spec c 222), (Z.eqb_spec c 215); simpl;
  repeat match goal with
         | |- context [?a <=? ?b] => destruct (Z.leb_spec a b)
         | |- context [?a =? ?b] => destruct (Z.eqb_spec a b)
         end; simpl; lia.
Qed.

Lemma latin1_lower_stable : LowerStable latin1.
Proof.
  split.
  - intros s. apply List.Forall_forall. intros x Hx.
    apply in_map_iff in Hx as (y & <- & _).
    unfold lower_keeps. simpl. now rewrite latin1_lower_char_idem.
  - intros s H. simpl. induction H as [|x l Hx _ IH]; [reflexivity|].
    unfold lower_keeps in Hx. simpl in *. congruence.
  - repeat constructor.
Qed.

(* ================================================================== *)
(** * Properties of the text operations *)
(* ================================================================== *)

(** C4: [normalize_text] returns the empty string for a missing or empty
    text; otherwise it is the text lower-cased, with the characters of
    the fixed table of accents replaced, every run of whitespace
    collapsed to one space and the whitespace at both ends removed (so
    the result is single-spaced and trimmed); and on "CÓDIGO  Úñico" it
    gives "codigo unico". *)
Theorem normalize_text_spec :
  (forall (db : UnicodeDB) (text : option pystr),
      normalize_text text = Spec.normalize text
      /\ Spec.single_spaced (normalize_text text) = true
      /\ Spec.trimmed (normalize_text text) = true)
  /\ (forall db : UnicodeDB,
         normalize_text None = [] /\ normalize_text (Some []) = [])
  /\ @normalize_text latin1 (Some (py "CÓDIGO  Úñico")) = py "codigo unico".
Proof.
  split; [|split].
  - intros db text. rewrite normalize_text_normalize.
    split; [reflexivity | apply normalize_tidy].
  - intros db. split; reflexivity.
  - vm_compute. reflexivity.
Qed.

(** C9: [normalize_text] is idempotent, for every text, given that
    [str.lower] leaves alone the characters it produces; hence the
    [descripcion_normalizada] of every product built by the
    synchronisation is unchanged by a second normalisation. *)
Theorem normalize_text_idempotent (db : UnicodeDB) (Hlower : LowerStable db) :
  (forall text : option pystr,
      normalize_text (Some (normalize_text text)) = normalize_text text)
  /\ (forall (w : world) (n : nat) (row : stock_row),
         normalize_text (Some (descripcion_normalizada (make_product w n row)))
         = descripcion_normalizada (make_product w n row)).
Proof.
  assert (H : forall text : option pystr,
             normalize_text (Some (normalize_text text)) = normalize_text text).
  { intros text. rewrite !normalize_text_normalize. apply normalize_idem. }
  split; [exact H|]. intros w n row. apply H.
Qed.

Lemma normalize_text_idempotent_witness :
  @normalize_text latin1
    (Some (@normalize_text latin1 (Some (py "  CÓDIGO  Úñico "))))
  = @normalize_text latin1 (Some (py "  CÓDIGO  Úñico ")).
Proof.
  exact (proj1 (normalize_text_idempotent latin1 latin1_lower_stable)
               (Some (py "  CÓDIGO  Úñico "))).
Defined.

(** C5: [extract_keywords] returns the set made of the surviving tokens
    of the normalised description (the runs of alphanumeric characters
    and underscores that are longer than 2 and not stop-words) and of
    the variant of each; for "Tornillos de Acero" the set is
    "tornillos", "tornillo", "acero", "aceros", and "de" is not in it. *)
Theorem extract_keywords_spec :
  (forall (db : UnicodeDB) (description : option pystr),
      extract_keywords description = Spec.extractKeywords description
      /\ forall k : pystr,
           k ∈ extract_keywords description
           <-> (exists t : pystr,
                   t ∈ Spec.tokens (Spec.normalize description)
                   /\ (2 < length t)%nat
                   /\ (t ∉ Spec.stop_list)
                   /\ (k = t \/ k = Spec.variant t)))
  /\ (let ks := @extract_keywords latin1 (Some (py "Tornillos de Acero")) in
      ks = {[ py "tornillos"; py "tornillo"; py "acero"; py "aceros" ]}
      /\ py "tornillo" ∈ ks /\ py "tornillos" ∈ ks
      /\ py "acero" ∈ ks /\ py "aceros" ∈ ks /\ py "de" ∉ ks).
Proof.
  split.
  - intros db description. split; [apply extract_keywords_extractKeywords|].
    intros k. rewrite extract_keywords_extractKeywords.
    unfold Spec.extractKeywords, Spec.surviving.
    rewrite elem_of_list_to_set, list_elem_of_In, in_flat_map. split.
    + intros (t & Ht & Hk). apply filter_In in Ht as [Ht Hs].
      unfold Spec.survives in Hs. apply andb_prop in Hs as [H2 Hst].
      apply bool_decide_eq_true in H2, Hst.
      exists t. rewrite list_elem_of_In. simpl in Hk. intuition.
    + intros (t & Ht & H2 & Hst & Hk). exists t. split.
      * apply filter_In. split; [now apply list_elem_of_In|].
        unfold Spec.survives.
        now rewrite !bool_decide_eq_true_2.
      * simpl. intuition.
  - assert (E : @extract_keywords latin1 (Some (py "Tornillos de Acero"))
                = {[ py "tornillos"; py "tornillo"; py "acero"; py "aceros" ]}).
    { vm_compute. reflexivity. }
    cbv zeta. rewrite E.
    repeat split; try (apply bool_decide_eq_true; vm_compute; reflexivity).
    apply (proj1 (bool_decide_eq_false _)). vm_compute. reflexivity.
Qed.

(** C10: the number of distinct keywords [extract_keywords] returns is at
    most twice the number of tokens of the normalised description that
    are longer than 2 and not stop-words. *)
Theorem extract_keywords_size (db : UnicodeDB) (description : option pystr) :
  (size (extract_keywords description)
   <= 2 * length (List.filter Spec.survives
                    (Spec.tokens (Spec.normalize description))))%nat.
Proof.
  rewrite extract_keywords_extractKeywords. apply extractKeywords_size.
Qed.

(* ================================================================== *)
(** * Batches *)
(* ================================================================== *)

Section Batches.
Context {A : Type}.
Implicit Types l : list A.

Lemma batches_fuel_enough n l fuel fuel' :
  (0 < n)%nat -> (length l <= fuel)%nat -> (length l <= fuel')%nat ->
  Spec.batches_fuel fuel n l = Spec.batches_fuel fuel' n l.
Proof.
  intros Hn. revert l fuel'.
  induction fuel as [|fuel IH]; intros l fuel' H H'.
  - destruct l; simpl in H; [|lia]. now destruct fuel'.
  - destruct l as [|x l]; [now destruct fuel'|].
    destruct fuel' as [|fuel']; simpl in H, H'; [lia|].
    cbn [Spec.batches_fuel]. f_equal.
    apply IH; rewrite length_drop; simpl; lia.
Qed.

Lemma batches_nil n : Spec.batches n ([] : list A) = [].
Proof. reflexivity. Qed.

Lemma batches_cons n l :
  (0 < n)%nat -> l <> [] ->
  Spec.batches n l = take n l :: Spec.batches n (drop n l).
Proof.
  intros Hn Hl. unfold Spec.batches.
  destruct l as [|x l]; [congruence|].
  cbn [length Spec.batches_fuel]. f_equal.
  apply batches_fuel_enough; [assumption| |lia].
  rewrite length_drop. simpl. lia.
Qed.

(** Induction along the batches of a list. *)
Lemma batches_ind n (Q : list A -> list (list A) -> Prop) :
  (0 < n)%nat ->
  Q [] [] ->
  (forall l, l <> [] -> Q (drop n l) (Spec.batches n (drop n l)) ->
             Q l (take n l :: Spec.batches n (drop n l))) ->
  forall l, Q l (Spec.batches n l).
Proof.
  intros Hn Hnil Hcons l.
  remember (length l) as m eqn:Hm.
  assert (Hle : (length l <= m)%nat) by lia. clear Hm.
  revert l Hle. induction m as [|m IH]; intros l Hle.
  - destruct l; simpl in Hle; [exact Hnil | lia].
  - destruct l as [|x l]; [exact Hnil|].
    rewrite batches_cons by (assumption || discriminate).
    apply Hcons; [discriminate|].
    apply IH. rewrite length_drop. simpl in *. lia.
Qed.

(** The batches are the list cut into pieces. *)
Lemma batches_concat n l : (0 < n)%nat -> concat (Spec.batches n l) = l.
Proof.
  intros Hn. apply (batches_ind n (fun l bs => concat bs = l)); auto.
  intros l' _ IH. simpl. rewrite IH. apply take_drop.
Qed.

(** Every batch but the last is full, and the last is not empty. *)
Lemma batches_sizes n l k b :
  (0 < n)%nat -> Spec.batches n l !! k = Some b ->
  (0 < length b <= n)%nat
  /\ (S k < length (Spec.batches n l) -> length b = n)%nat.
Proof.
  intros Hn. revert k.
  apply (batches_ind n (fun l bs => forall k, bs !! k = Some b ->
           (0 < length b <= n)%nat /\ (S k < length bs -> length b = n)%nat));
    [assumption | intros k H; discriminate |].
  intros l' Hl' IH [|k] H; simpl in H.
  - injection H as <-. rewrite length_take. split.
    + destruct l'; [congruence|]. simpl. lia.
    + simpl. intros Hlen.
      destruct (Spec.batches n (drop n l')) eqn:E; simpl in Hlen; [lia|].
      assert (Hd : drop n l' <> []) by (intros E'; now rewrite E' in E).
      assert (n < length l')%nat; [|lia].
      destruct (Nat.lt_ge_cases n (length l')); [assumption|].
      exfalso. apply Hd. apply drop_ge. lia.
  - destruct (IH k H) as [H1 H2]. split; [assumption|].
    simpl. intros Hlen. apply H2. lia.
Qed.

Lemma batches_length n l :
  (0 < n)%nat ->
  length (Spec.batches n l) = ((length l + (n - 1)) / n)%nat.
Proof.
  intros Hn.
  apply (batches_ind n (fun l bs => length bs = ((length l + (n - 1)) / n)%nat));
    [assumption | |].
  - simpl. symmetry. apply Nat.div_small. lia.
  - intros l' Hl' IH. simpl. rewrite IH, length_drop.
    assert (0 < length l')%nat by (destruct l'; [congruence | simpl; lia]).
    destruct (Nat.lt_ge_cases (length l') n) as [Hlt|Hge].
    + replace (length l' - n + (n - 1))%nat with (n - 1)%nat by lia.
      rewrite Nat.div_small by lia.
      replace (length l' + (n - 1))%nat with (length l' - 1 + 1 * n)%nat by lia.
      rewrite Nat.div_add by lia. rewrite Nat.div_small by lia. reflexivity.
    + replace (length l' + (n - 1))%nat
        with (length l' - n + (n - 1) + 1 * n)%nat by lia.
      rewrite Nat.div_add by lia. lia.
Qed.

(** The slices the loop takes are the batches. *)
Lemma slices_batches n l :
  (0 < n)%nat ->
  map (fun i => slice l i (i + n)) (range_step 0 (length l) n)
  = Spec.batches n l.
Proof.
  intros Hn. unfold range_step, slice. rewrite map_map.
  rewrite Nat.sub_0_r, <- (batches_length n l Hn).
  rewrite (map_ext _ (fun k => take n (drop (k * n) l)))
    by (intros k; f_equal; lia).
  apply (batches_ind n (fun l bs =>
           map (fun k => take n (drop (k * n) l)) (seq 0 (length bs)) = bs));
    [assumption | reflexivity |].
  intros l' _ IH. cbn [length seq map]. f_equal.
  rewrite <- seq_shift, map_map. rewrite <- IH at 2.
  apply map_ext. intros k. rewrite drop_drop. reflexivity.
Qed.

Lemma range_step_index n l :
  (0 < n)%nat ->
  map (fun i => (i / n)%nat) (range_step 0 (length l) n)
  = seq 0 (length (Spec.batches n l)).
Proof.
  intros Hn. unfold range_step.
  rewrite map_map, Nat.sub_0_r, <- (batches_length n l Hn).
  rewrite (map_ext _ (fun k => k)); [apply map_id|].
  intros k. simpl. apply Nat.div_mul. lia.
Qed.

End Batches.

(* ================================================================== *)
(** * The synchronisation *)
(* ================================================================== *)

Section SyncFacts.
Context {db : UnicodeDB}.
Variable cfg : config.

Lemma posted_app t t' : posted (t ++ t') = posted t ++ posted t'.
Proof.
  induction t as [|e t IH]; [reflexivity|].
  destruct e; simpl; now rewrite IH.
Qed.

Lemma http_calls_app t t' : http_calls (t ++ t') = http_calls t ++ http_calls t'.
Proof. apply List.filter_app. Qed.

Lemma posted_http_calls t : posted (http_calls t) = posted t.
Proof.
  induction t as [|e t IH]; [reflexivity|].
  destruct e; simpl; now rewrite ?IH.
Qed.

(** The loop posts the batches in turn until one fails. *)
Lemma insert_batches_attempted w products starts k total :
  map (fun i => (i / batch_size)%nat) starts = seq k (length starts) ->
  let run := insert_batches cfg w products starts total in
  let att := attempted (http_post w) k
               (map (fun i => slice products i (i + batch_size)) starts) in
  http_calls (fst run) = map (post_call cfg) (fst att)
  /\ succeeded (snd run) = snd att.
Proof.
  revert k total. induction starts as [|i starts IH]; intros k total Hidx.
  - split; reflexivity.
  - assert (Hi : (i / batch_size)%nat = k) by (now injection Hidx).
    assert (Hidx' : map (fun i => (i / batch_size)%nat) starts
                    = seq (S k) (length starts)) by (now injection Hidx).
    specialize (IH (S k) (total + length (slice products i (i + batch_size)))%nat Hidx').
    cbv zeta in IH. destruct IH as [IH1 IH2].
    cbv zeta. cbn [map insert_batches attempted]. rewrite Hi.
    set (batch := slice products i (i + batch_size)) in *.
    unfold post_ok, call, bind, emit, ret.
    destruct (http_post w k batch) as [r|e]; [|split; reflexivity].
    destruct (bool_decide (status_code r ∈ [200; 201; 204])).
    + destruct (insert_batches cfg w products starts (total + length batch))
        as [t o].
      destruct (attempted (http_post w) (S k) _) as [a ok].
      simpl in *. rewrite IH1, IH2. split; reflexivity.
    + split; reflexivity.
Qed.

Variable w : world.
Variable rows : list stock_row.
Hypothesis Hurl : truthy (SUPABASE_URL cfg) = true.
Hypothesis Hkey : truthy (SUPABASE_KEY cfg) = true.
Hypothesis Hconnect : sql_connect w = Returns tt.
Hypothesis Hcatalog : sql_catalog w catalog_query = Returns rows.

Let products := products_of w rows.
Let loop := insert_batches cfg w products
              (range_step 0 (length products) batch_size) 0.

(** A run that reads the catalogue and whose bulk delete raises. *)
Lemma sync_run_delete_raises e :
  http_delete w = Raises e ->
  http_calls (fst (sync_catalog_to_supabase cfg w)) = [delete_call cfg]
  /\ snd (sync_catalog_to_supabase cfg w) = false.
Proof.
  intros Hdel. unfold sync_catalog_to_supabase. rewrite Hurl, Hkey.
  cbn [negb orb]. unfold sync_body, read_products, call, emit, ret, bind.
  rewrite Hconnect, Hcatalog, Hdel. split; reflexivity.
Qed.

(** A run that reads the catalogue and whose bulk delete is answered. *)
Lemma sync_run_delete_returns r :
  http_delete w = Returns r ->
  exists before,
    fst (sync_catalog_to_supabase cfg w)
    = before ++ delete_call cfg
        :: (if bool_decide (status_code r ∈ [200; 204]) then []
            else [Print (delete_error_line r)])
        ++ fst loop
        ++ (if snd loop is Raises e then fst (sync_handler e) else [])
    /\ http_calls before = []
    /\ snd (sync_catalog_to_supabase cfg w) = succeeded (snd loop).
Proof.
  intros Hdel. unfold sync_catalog_to_supabase. rewrite Hurl, Hkey.
  cbn [negb orb]. unfold sync_body, read_products, call, emit, ret, bind.
  rewrite Hconnect, Hcatalog, Hdel.
  fold (products_of w rows). fold products. fold loop.
  eexists [_; _; _; _].
  destruct (bool_decide (status_code r ∈ [200; 204]));
    destruct loop as [t [b|e]]; simpl; repeat split;
    try (now rewrite ?app_nil_r).
Qed.

Lemma sync_run_calls r :
  http_delete w = Returns r ->
  let att := attempted (http_post w) 0 (Spec.batches batch_size products) in
  http_calls (fst (sync_catalog_to_supabase cfg w))
  = delete_call cfg :: map (post_call cfg) (fst att)
  /\ snd (sync_catalog_to_supabase cfg w) = snd att.
Proof.
  intros Hdel. cbv zeta.
  destruct (sync_run_delete_returns r Hdel) as (before & -> & Hb & ->).
  pose proof (insert_batches_attempted w products
                (range_step 0 (length products) batch_size) 0 0) as H.
  assert (Hlen : length (range_step 0 (length products) batch_size)
                 = length (Spec.batches batch_size products)).
  { rewrite <- (slices_batches batch_size products) by (unfold batch_size; lia).
    now rewrite length_map. }
  rewrite range_step_index, slices_batches, Hlen in H
    by (unfold batch_size; lia).
  specialize (H eq_refl). cbv zeta in H. destruct H as [H1 H2].
  fold loop in H1, H2. split; [|exact H2].
  rewrite http_calls_app, Hb. cbn [app http_calls List.filter is_http delete_call].
  f_equal. fold (http_calls). rewrite !http_calls_app, H1.
  assert (E : forall l1 l2 : list event,
             http_calls l1 = [] -> http_calls l2 = [] ->
             http_calls l1 ++ map (post_call cfg)
               (fst (attempted (http_post w) 0 (Spec.batches batch_size products)))
             ++ http_calls l2
             = map (post_call cfg)
                 (fst (attempted (http_post w) 0 (Spec.batches batch_size products)))).
  { intros l1 l2 -> ->. now rewrite app_nil_r. }
  apply E.
  - now destruct (bool_decide _).
  - now destruct (snd loop).
Qed.

End SyncFacts.

(* ================================================================== *)
(** * Properties of the synchronisation *)
(* ================================================================== *)

Lemma attempted_all_ok post k (bs : list (list product)) :
  (forall j b, bs !! j = Some b -> post_ok (post (k + j)%nat b) = true) ->
  attempted post k bs = (bs, true).
Proof.
  revert k. induction bs as [|b bs IH]; intros k H; [reflexivity|].
  simpl. pose proof (H 0%nat b eq_refl) as H0.
  rewrite Nat.add_0_r in H0. rewrite H0, IH; [reflexivity|].
  intros j b' Hj. replace (S k + j)%nat with (k + S j)%nat by lia.
  now apply H.
Qed.

Lemma attempted_first_failure post k (bs : list (list product)) j b :
  bs !! j = Some b ->
  (forall i b', (i < j)%nat -> bs !! i = Some b' ->
                post_ok (post (k + i)%nat b') = true) ->
  post_ok (post (k + j)%nat b) = false ->
  attempted post k bs = (take (S j) bs, false).
Proof.
  revert k j. induction bs as [|b0 bs IH]; intros k j Hj Hbefore Hfail;
    [discriminate|].
  destruct j as [|j]; simpl in Hj.
  - injection Hj as ->. simpl. rewrite Nat.add_0_r in Hfail.
    rewrite Hfail. now rewrite take_0.
  - simpl. pose proof (Hbefore 0%nat b0 ltac:(lia) eq_refl) as H0.
    rewrite Nat.add_0_r in H0. rewrite H0.
    rewrite (IH (S k) j Hj); [reflexivity| |].
    + intros i b' Hi Hb'. replace (S k + i)%nat with (k + S i)%nat by lia.
      apply Hbefore; [lia | exact Hb'].
    + now replace (S k + j)%nat with (k + S j)%nat by lia.
Qed.

Lemma batches_2500 {A} (l : list A) :
  length l = 2500%nat ->
  map length (Spec.batches 1000 l) = [1000; 1000; 500]%nat.
Proof.
  intros Hl.
  assert (Hne : forall l' : list A, (0 < length l')%nat -> l' <> [])
    by (intros [|] ?; [simpl in *; lia | discriminate]).
  rewrite (batches_cons 1000 l) by (try apply Hne; lia).
  rewrite (batches_cons 1000 (drop 1000 l))
    by (try apply Hne; rewrite ?length_drop; lia).
  rewrite (batches_cons 1000 (drop 1000 (drop 1000 l)))
    by (try apply Hne; rewrite ?length_drop; lia).
  assert (E : drop 1000 (drop 1000 (drop 1000 l)) = [])
    by (apply drop_ge; rewrite !length_drop; lia).
  rewrite E, batches_nil. cbn [map].
  rewrite !length_take, !length_drop, Hl. reflexivity.
Qed.

(** C2: the synchronisation inserts the products in batches of 1000
    records, the last one holding what remains (2500 products: three
    batches of 1000, 1000 and 500); when every insert succeeds all the
    batches are posted and the result is success; when the insert of a
    batch is answered with a status other than 200, 201 or 204 the result
    is failure, no later batch is posted, and nothing is done about the
    batches already posted. *)
Theorem sync_inserts_in_batches (db : UnicodeDB) (cfg : config) (w : world)
        (rows : list stock_row) (deleted : response)
        (Hurl : truthy (SUPABASE_URL cfg) = true)
        (Hkey : truthy (SUPABASE_KEY cfg) = true)
        (Hconnect : sql_connect w = Returns tt)
        (Hcatalog : sql_catalog w catalog_query = Returns rows)
        (Hdelete : http_delete w = Returns deleted) :
  let products := products_of w rows in
  let batches := Spec.batches 1000 products in
  let run := sync_catalog_to_supabase cfg w in
  (concat batches = products
   /\ (forall k b, batches !! k = Some b ->
         (0 < length b <= 1000)%nat
         /\ (S k < length batches -> length b = 1000)%nat)
   /\ (length products = 2500%nat ->
       map length batches = [1000; 1000; 500]%nat))
  /\ ((forall k b, batches !! k = Some b -> post_ok (http_post w k b) = true) ->
      http_calls (fst run) = delete_call cfg :: map (post_call cfg) batches
      /\ snd run = true)
  /\ (forall k b r,
         batches !! k = Some b ->
         (forall j b', (j < k)%nat -> batches !! j = Some b' ->
                       post_ok (http_post w j b') = true) ->
         http_post w k b = Returns r ->
         status_code r ∉ [200; 201; 204] ->
         http_calls (fst run)
         = delete_call cfg :: map (post_call cfg) (take (S k) batches)
         /\ snd run = false).
Proof.
  intros products batches run.
  destruct (sync_run_calls cfg w rows Hurl Hkey Hconnect Hcatalog deleted Hdelete)
    as [Hcalls Hres].
  fold run in Hcalls, Hres. change batch_size with 1000%nat in Hcalls, Hres.
  fold products in Hcalls, Hres. fold batches in Hcalls, Hres.
  split; [split; [|split]|split].
  - apply batches_concat. lia.
  - intros k b Hb. apply (batches_sizes 1000 products k b); [lia | exact Hb].
  - apply batches_2500.
  - intros Hok. rewrite Hcalls, Hres.
    now rewrite (attempted_all_ok (http_post w) 0 batches Hok).
  - intros k b r Hb Hbefore Hpost Hstatus. rewrite Hcalls, Hres.
    rewrite (attempted_first_failure (http_post w) 0 batches k b Hb Hbefore);
      [split; reflexivity|].
    simpl. rewrite Hpost. simpl. now apply bool_decide_eq_false_2.
Qed.

Lemma sync_inserts_in_batches_witness :
  http_calls (fst (@sync_catalog_to_supabase latin1 (Sample.cfg None)
                     (Sample.world_of [Sample.martillo]
                        (Returns Sample.no_content)
                        (fun _ => Returns Sample.unavailable))))
  = [ delete_call (Sample.cfg None);
      post_call (Sample.cfg None)
        (@products_of latin1
           (Sample.world_of [Sample.martillo] (Returns Sample.no_content)
              (fun _ => Returns Sample.unavailable))
           [Sample.martillo]) ]
  /\ snd (@sync_catalog_to_supabase latin1 (Sample.cfg None)
            (Sample.world_of [Sample.martillo]
               (Returns Sample.no_content)
               (fun _ => Returns Sample.unavailable))) = false.
Proof.
  refine (proj2 (proj2 (sync_inserts_in_batches latin1 (Sample.cfg None)
            (Sample.world_of [Sample.martillo] (Returns Sample.no_content)
               (fun _ => Returns Sample.unavailable))
            [Sample.martillo] Sample.no_content
            eq_refl eq_refl eq_refl eq_refl eq_refl))
          0%nat _ Sample.unavailable eq_refl _ eq_refl _).
  - intros j b' Hj. lia.
  - vm_compute. intros H. inversion H as [|? ? ? H1]; subst.
    inversion H1 as [|? ? ? H2]; subst. inversion H2 as [|? ? ? H3]; subst.
    inversion H3.
Defined.

(** 2500 rows, the second insert refused: two batches of 1000 are posted
    and the third is not. *)
Example sync_2500_second_batch_refused :
  let run := @sync_catalog_to_supabase latin1 (Sample.cfg None)
               (Sample.second_batch_refused (repeat Sample.martillo 2500)) in
  map length (posted (fst run)) = [1000; 1000]%nat /\ snd run = false.
Proof. vm_compute. split; reflexivity. Qed.

Example sync_2500_all_well :
  let run := @sync_catalog_to_supabase latin1 (Sample.cfg None)
               (Sample.all_well (repeat Sample.martillo 2500)) in
  map length (posted (fst run)) = [1000; 1000; 500]%nat /\ snd run = true
  /\ last (fst run) = Some (Print (completed_line 2500)).
Proof. vm_compute. repeat split; reflexivity. Qed.

(** C7: a bulk delete answered with a status other than 200 or 204 is
    logged and does not abort the synchronisation: the batches are
    inserted as they are after a delete that succeeded, and the result
    of the run is the same. *)
Theorem delete_failure_does_not_abort (db : UnicodeDB) (cfg : config)
        (w : world) (rows : list stock_row) (deleted : response)
        (Hurl : truthy (SUPABASE_URL cfg) = true)
        (Hkey : truthy (SUPABASE_KEY cfg) = true)
        (Hconnect : sql_connect w = Returns tt)
        (Hcatalog : sql_catalog w catalog_query = Returns rows)
        (Hdelete : http_delete w = Returns deleted)
        (Hstatus : status_code deleted ∉ [200; 204]) :
  let run := sync_catalog_to_supabase cfg w in
  Print (delete_error_line deleted) ∈ fst run
  /\ posted (fst run)
     = fst (attempted (http_post w) 0
              (Spec.batches 1000 (products_of w rows)))
  /\ forall other : response,
       let run' := sync_catalog_to_supabase cfg (with_delete w (Returns other)) in
       http_calls (fst run) = http_calls (fst run')
       /\ snd run = snd run'.
Proof.
  intros run.
  destruct (sync_run_calls cfg w rows Hurl Hkey Hconnect Hcatalog deleted Hdelete)
    as [Hcalls Hres].
  fold run in Hcalls, Hres. split; [|split].
  - destruct (sync_run_delete_returns cfg w rows Hurl Hkey Hconnect Hcatalog
                deleted Hdelete) as (before & E & _).
    fold run in E. rewrite E.
    rewrite (bool_decide_eq_false_2 _ Hstatus).
    apply elem_of_app. right. apply elem_of_cons. right.
    apply elem_of_app. left. apply list_elem_of_singleton. reflexivity.
  - rewrite <- posted_http_calls, Hcalls. cbn [posted delete_call].
    change batch_size with 1000%nat.
    generalize (fst (attempted (http_post w) 0
                       (Spec.batches 1000 (products_of w rows)))).
    intros l. induction l as [|b l IH]; [reflexivity|].
    cbn [map posted post_call]. now rewrite IH.
  - intros other run'.
    destruct (sync_run_calls cfg (with_delete w (Returns other)) rows
                Hurl Hkey Hconnect Hcatalog other eq_refl) as [Hcalls' Hres'].
    fold run' in Hcalls', Hres'. rewrite Hcalls, Hcalls', Hres, Hres'.
    split; reflexivity.
Qed.

Lemma delete_failure_does_not_abort_witness :
  let w := Sample.delete_refused [Sample.martillo] in
  let run := @sync_catalog_to_supabase latin1 (Sample.cfg None) w in
  Print (delete_error_line Sample.unavailable) ∈ fst run
  /\ posted (fst run)
     = fst (attempted (http_post w) 0
              (Spec.batches 1000 (@products_of latin1 w [Sample.martillo])))
  /\ forall other : response,
       let run' := @sync_catalog_to_supabase latin1 (Sample.cfg None)
                     (with_delete w (Returns other)) in
       http_calls (fst run) = http_calls (fst run')
       /\ snd run = snd run'.
Proof.
  refine (delete_failure_does_not_abort latin1 (Sample.cfg None)
            (Sample.delete_refused [Sample.martillo]) [Sample.martillo]
            Sample.unavailable eq_refl eq_refl eq_refl eq_refl eq_refl _).
  vm_compute. intros H. inversion H as [|? ? ? H1]; subst.
  inversion H1 as [|? ? ? H2]; subst. inversion H2.
Defined.

Lemma range_step_empty : range_step 0 0 batch_size = [].
Proof. vm_compute. reflexivity. Qed.

Lemma insert_batches_done cfg w products total :
  insert_batches cfg w products [] total
  = ([Print (completed_line total)], Returns true).
Proof.
  cbn [insert_batches]. unfold emit, ret, bind, completed_line.
  cbn [app]. reflexivity.
Qed.

(** C8 as amended: when the catalogue query returns no row, the bulk
    delete is still issued and no batch is posted; the result is success,
    with 0 records reported, when the bulk delete is answered (whatever
    its status), and failure when the bulk delete raises. *)
Theorem sync_empty_catalog (db : UnicodeDB) (cfg : config) (w : world)
        (Hurl : truthy (SUPABASE_URL cfg) = true)
        (Hkey : truthy (SUPABASE_KEY cfg) = true)
        (Hconnect : sql_connect w = Returns tt)
        (Hcatalog : sql_catalog w catalog_query = Returns []) :
  let run := sync_catalog_to_supabase cfg w in
  http_calls (fst run) = [delete_call cfg]
  /\ posted (fst run) = []
  /\ (forall r, http_delete w = Returns r ->
        snd run = true
        /\ last (fst run) = Some (Print (completed_line 0)))
  /\ (forall e, http_delete w = Raises e -> snd run = false).
Proof.
  intros run.
  assert (Hcalls : http_calls (fst run) = [delete_call cfg]).
  { destruct (http_delete w) as [r|e] eqn:Hdel.
    - now destruct (sync_run_calls cfg w [] Hurl Hkey Hconnect Hcatalog r Hdel).
    - now destruct (sync_run_delete_raises cfg w [] Hurl Hkey Hconnect Hcatalog
                      e Hdel). }
  split; [exact Hcalls|]. split; [|split].
  - now rewrite <- posted_http_calls, Hcalls.
  - intros r Hdel. split.
    + now destruct (sync_run_calls cfg w [] Hurl Hkey Hconnect Hcatalog r Hdel).
    + destruct (sync_run_delete_returns cfg w [] Hurl Hkey Hconnect Hcatalog
                  r Hdel) as (before & E & _).
      fold run in E. rewrite E.
      change (products_of w []) with ([] : list product).
      cbn [length]. rewrite range_step_empty, insert_batches_done.
      cbn [fst snd]. rewrite app_nil_r, last_app.
      now destruct (bool_decide (status_code r ∈ [200; 204])).
  - intros e Hdel.
    now destruct (sync_run_delete_raises cfg w [] Hurl Hkey Hconnect Hcatalog
                    e Hdel).
Qed.

Lemma sync_empty_catalog_witness :
  let run := @sync_catalog_to_supabase latin1 (Sample.cfg None)
               (Sample.delete_refused []) in
  http_calls (fst run) = [delete_call (Sample.cfg None)]
  /\ posted (fst run) = []
  /\ snd run = true
  /\ last (fst run) = Some (Print (completed_line 0)).
Proof.
  pose proof (sync_empty_catalog latin1 (Sample.cfg None)
                (Sample.delete_refused []) eq_refl eq_refl eq_refl eq_refl)
    as (H1 & H2 & H3 & _).
  destruct (H3 Sample.unavailable eq_refl) as [H4 H5].
  exact (conj H1 (conj H2 (conj H4 H5))).
Defined.

(** C8 as stated fails: the catalogue query returns no row, the bulk
    delete is issued and raises, and the result is failure. *)
Lemma sync_empty_catalog_counterexample :
  let w := Sample.delete_unreachable [] in
  let run := @sync_catalog_to_supabase latin1 (Sample.cfg None) w in
  sql_catalog w catalog_query = Returns []
  /\ http_calls (fst run) = [delete_call (Sample.cfg None)]
  /\ snd run <> true.
Proof. vm_compute. repeat split; congruence. Qed.

(* ================================================================== *)
(** * Properties of the search *)
(* ================================================================== *)

Section SearchFacts.
Variable cfg : config.
Variable w : world.

(** The [try] block answers 200, and 500 when the database raises. *)
Lemma search_try_response terms :
  exists t body code,
    try_except (search_body cfg w terms)
               (fun e => ([], Jsonify (JsonError e) 500))
    = (t, Jsonify body code)
    /\ (code = 200 \/ code = 500).
Proof.
  unfold search_body, call, bind, ret, try_except.
  destruct (sql_connect w) as [u|e]; [|eauto 6].
  destruct (sql_search w _ _) as [found|e]; eauto 6.
Qed.

(** A request that passes the token check is not answered 403. *)
Lemma search_multi_authorized args :
  args_get args (py "token") = API_TOKEN cfg ->
  exists body code,
    snd (search_multi cfg w args) = Jsonify body code /\ code <> 403.
Proof.
  intros Htok. unfold search_multi.
  rewrite (bool_decide_eq_true_2 _ Htok). cbn [negb].
  destruct (negb (truthy _)); [eexists _, _; split; [reflexivity | lia]|].
  destruct (bool_decide (_ = [])); [eexists _, _; split; [reflexivity | lia]|].
  destruct (search_try_response
              (map strip
                 (List.filter (fun t => truthy (Some (strip t)))
                    (split 44 (strip (default [] (args_get args (py "query")))))))) as (t & body & code & -> & Hc).
  eexists _, _. split; [reflexivity | lia].
Qed.

Lemma search_multi_unauthorized args :
  args_get args (py "token") <> API_TOKEN cfg ->
  search_multi cfg w args = ([], Abort 403 (py "Unauthorized")).
Proof.
  intros Htok. unfold search_multi.
  now rewrite (bool_decide_eq_false_2 _ Htok).
Qed.

Lemma truthy_nil s : truthy (Some s) = false <-> s = [].
Proof. destruct s; simpl; split; congruence. Qed.

Lemma no_terms q :
  Forall (fun t => strip t = []) (split 44 q) ->
  map strip (List.filter (fun t => truthy (Some (strip t))) (split 44 q)) = [].
Proof.
  intros H. induction H as [|t l Ht _ IH]; [reflexivity|].
  simpl. now rewrite Ht.
Qed.

End SearchFacts.

(** C3: the request is refused with 403 exactly when the [token]
    parameter differs from the value of [API_TOKEN]; when [API_TOKEN] is
    not set and the request carries no [token], both are absent and the
    request is served. *)
Theorem search_multi_authorization :
  (forall cfg w args,
      (snd (search_multi cfg w args) = Abort 403 (py "Unauthorized")
       <-> args_get args (py "token") <> API_TOKEN cfg)
      /\ (status (snd (search_multi cfg w args)) = 403
          <-> args_get args (py "token") <> API_TOKEN cfg))
  /\ (forall cfg w args,
         API_TOKEN cfg = None -> args_get args (py "token") = None ->
         status (snd (search_multi cfg w args)) <> 403)
  /\ (let run := search_multi (Sample.cfg None)
                   (Sample.all_well [Sample.martillo])
                   [(py "query", py "martillo")] in
      fst run = [ SqlConnect (conn_str (Sample.cfg None)) 5;
                  SqlExecute (search_query [py "martillo"]) [py "%martillo%"] ]
      /\ snd run
         = Jsonify
             (JsonResults 1
                [[ (py "Codigo", SqlStr (py "M-001"));
                   (py "Descri", SqlStr (py "Martillo de Goma"));
                   (py "PrecioFinal",
                    SqlFloat {| coefficient := 125050; exponent := -2 |}) ]])
             200).
Proof.
  assert (H : forall cfg w args,
             (snd (search_multi cfg w args) = Abort 403 (py "Unauthorized")
              <-> args_get args (py "token") <> API_TOKEN cfg)
             /\ (status (snd (search_multi cfg w args)) = 403
                 <-> args_get args (py "token") <> API_TOKEN cfg)).
  { intros cfg w args.
    destruct (decide (args_get args (py "token") = API_TOKEN cfg)) as [E|E].
    - destruct (search_multi_authorized cfg w args E) as (body & code & -> & Hc).
      simpl. split; split; intros H; congruence.
    - rewrite (search_multi_unauthorized cfg w args E). simpl.
      split; split; intros _; auto. }
  split; [exact H|]. split.
  - intros cfg w args Hcfg Harg Hst.
    apply (proj2 (H cfg w args)) in Hst. congruence.
  - vm_compute. split; reflexivity.
Qed.

Lemma search_multi_authorization_witness :
  (status (snd (search_multi (Sample.cfg None)
                  (Sample.all_well [Sample.martillo])
                  [(py "query", py "martillo")])) =? 403) = false.
Proof.
  apply Z.eqb_neq.
  exact (proj1 (proj2 search_multi_authorization)
               (Sample.cfg None) (Sample.all_well [Sample.martillo])
               [(py "query", py "martillo")] eq_refl eq_refl).
Defined.

(** C6 as amended: for every request that passes the token check, a
    [query] parameter that is missing or blank after trimming is answered
    400 with the error "Query parameter is required.", and a query whose
    comma-separated pieces are all blank is answered 400 with the error
    "No valid terms provided."; in both cases nothing is done with the
    database.  Every request that fails the token check is answered 403,
    whatever its [query], and nothing is done with the database either. *)
Theorem search_multi_validation (cfg : config) (w : world)
        (args : list (pystr * pystr)) :
  let query_param := strip (default [] (args_get args (py "query"))) in
  (args_get args (py "token") = API_TOKEN cfg ->
   (query_param = [] ->
    search_multi cfg w args
    = ([], Jsonify (JsonError (py "Query parameter is required.")) 400))
   /\ (query_param <> [] ->
       Forall (fun t => strip t = []) (split 44 query_param) ->
       search_multi cfg w args
       = ([], Jsonify (JsonError (py "No valid terms provided.")) 400)))
  /\ (args_get args (py "token") <> API_TOKEN cfg ->
      search_multi cfg w args = ([], Abort 403 (py "Unauthorized"))).
Proof.
  intros query_param. split; [|apply search_multi_unauthorized].
  intros Htoken. unfold search_multi.
  rewrite (bool_decide_eq_true_2 _ Htoken). cbn [negb]. fold query_param.
  clearbody query_param. split.
  - intros ->. reflexivity.
  - intros Hne Hterms.
    assert (Ht : truthy (Some query_param) = true)
      by (destruct query_param; [congruence | reflexivity]).
    rewrite Ht. cbn [negb]. now rewrite (no_terms _ Hterms).
Qed.

Lemma search_multi_validation_witness :
  let secret := Sample.cfg (Some (py "secreto")) in
  let w := Sample.all_well [Sample.martillo] in
  search_multi secret w [(py "token", py "secreto"); (py "query", py "  ")]
  = ([], Jsonify (JsonError (py "Query parameter is required.")) 400)
  /\ search_multi secret w [(py "token", py "secreto"); (py "query", py " , ,")]
     = ([], Jsonify (JsonError (py "No valid terms provided.")) 400)
  /\ search_multi secret w [(py "token", py "otro"); (py "query", py " , ,")]
     = ([], Abort 403 (py "Unauthorized")).
Proof.
  split; [|split].
  - exact (proj1 (proj1 (search_multi_validation
                           (Sample.cfg (Some (py "secreto")))
                           (Sample.all_well [Sample.martillo])
                           [(py "token", py "secreto"); (py "query", py "  ")])
                        eq_refl) eq_refl).
  - refine (proj2 (proj1 (search_multi_validation
                            (Sample.cfg (Some (py "secreto")))
                            (Sample.all_well [Sample.martillo])
                            [(py "token", py "secreto"); (py "query", py " , ,")])
                         eq_refl) _ _).
    + vm_compute. discriminate.
    + vm_compute. repeat constructor.
  - refine (proj2 (search_multi_validation
                     (Sample.cfg (Some (py "secreto")))
                     (Sample.all_well [Sample.martillo])
                     [(py "token", py "otro"); (py "query", py " , ,")]) _).
    vm_compute. discriminate.
Defined.

(** C6 as stated fails: a request without [query] and with a wrong
    [token] is answered 403, not 400; and the error of the 400 answer
    ends with a full stop. *)
Lemma search_multi_validation_counterexample :
  let secret := Sample.cfg (Some (py "secreto")) in
  let w := Sample.all_well [Sample.martillo] in
  (args_get [(py "token", py "otro")] (py "query") = None
   /\ search_multi secret w [(py "token", py "otro")]
      = ([], Abort 403 (py "Unauthorized"))
   /\ status (snd (search_multi secret w [(py "token", py "otro")])) <> 400)
  /\ (search_multi secret w [(py "token", py "secreto")]
      = ([], Jsonify (JsonError (py "Query parameter is required.")) 400)
      /\ py "Query parameter is required."
         <> py "Query parameter is required").
Proof. vm_compute. repeat split; congruence. Qed.

(* ================================================================== *)
(** * The query of the search *)
(* ================================================================== *)

Section QueryFacts.

Lemma split_nonempty sep s : split sep s <> [].
Proof.
  destruct s as [|c s]; simpl; [discriminate|].
  destruct (c =? sep); [discriminate|].
  destruct (split sep s); discriminate.
Qed.

(** A word followed by the separator is one piece. *)
Lemma split_word sep word rest :
  Forall (fun c => c <> sep) word ->
  split sep (word ++ sep :: rest) = word :: split sep rest.
Proof.
  induction 1 as [|c word Hc _ IH]; simpl.
  - now rewrite Z.eqb_refl.
  - rewrite (proj2 (Z.eqb_neq c sep) Hc), IH. reflexivity.
Qed.

(** The text of the query depends on the number of terms only: no
    term is written into it. *)
Lemma search_query_by_count terms terms' :
  length terms = length terms' -> search_query terms = search_query terms'.
Proof.
  intros H.
  assert (E : map (fun _ : pystr => py "Descri LIKE ?") terms
              = map (fun _ : pystr => py "Descri LIKE ?") terms').
  { revert terms' H. induction terms as [|t terms IH]; intros [|t' terms'] H;
      try discriminate; [reflexivity|].
    injection H as H. cbn [map]. f_equal. now apply IH. }
  unfold search_query, where_clause, like_clauses. now rewrite E.
Qed.

(** One placeholder and one parameter per term, the parameter being
    the term between two [%]. *)
Lemma like_params_terms terms :
  like_params terms = map (fun t => 37 :: t ++ [37]) terms
  /\ length (like_params terms) = length terms.
Proof. unfold like_params. split; [reflexivity | apply length_map]. Qed.

Lemma where_clause_one t :
  where_clause [t] = py "Descri LIKE ? AND PrecioFinal > 0".
Proof. reflexivity. Qed.

Lemma where_clause_more t t' terms :
  where_clause (t :: t' :: terms)
  = py "Descri" ++ 32 :: py "LIKE" ++ 32 :: py "?" ++ 32 :: py "OR"
    ++ 32 :: where_clause (t' :: terms).
Proof.
  unfold where_clause, like_clauses. cbn [map join].
  change (py "Descri LIKE ?") with
    (py "Descri" ++ 32 :: py "LIKE" ++ 32 :: py "?").
  change (py " OR ") with (32 :: py "OR" ++ [32]).
  repeat (rewrite <- ?app_assoc, <- ?app_comm_cons). reflexivity.
Qed.

Lemma lex_like_or words :
  Sql.lex (py "Descri" :: py "LIKE" :: py "?" :: py "OR" :: words)
  = (fun tokens => Sql.TLike :: Sql.TOr :: tokens) <$> Sql.lex words.
Proof.
  change (Sql.lex (py "Descri" :: py "LIKE" :: py "?" :: py "OR" :: words))
    with (cons Sql.TLike <$> (cons Sql.TOr <$> Sql.lex words)).
  now destruct (Sql.lex words).
Qed.

Lemma parse_like_or rest p ps :
  Sql.parse (Sql.TLike :: Sql.TOr :: rest) (p :: ps)
  = cons [Sql.Like p] <$> Sql.parse rest ps.
Proof. simpl. now destruct (Sql.parse rest ps). Qed.

Variable like : pystr -> option pystr -> bool.

Lemma selects_one t row :
  Sql.selects like (where_clause [t]) (like_params [t]) row
  = Some (like (37 :: t ++ [37]) (row_descri row)
          && Sql.price_positive (row_precio row)).
Proof.
  unfold Sql.selects. rewrite where_clause_one.
  change (Sql.lex (split 32 (py "Descri LIKE ? AND PrecioFinal > 0")))
    with (Some [Sql.TLike; Sql.TAnd; Sql.TPrice]).
  simpl. now rewrite !andb_true_r, orb_false_r.
Qed.

Lemma selects_more t t' terms row :
  Sql.selects like (where_clause (t :: t' :: terms))
              (like_params (t :: t' :: terms)) row
  = orb (like (37 :: t ++ [37]) (row_descri row))
      <$> Sql.selects like (where_clause (t' :: terms))
                      (like_params (t' :: terms)) row.
Proof.
  unfold Sql.selects. rewrite where_clause_more.
  rewrite !split_word by (vm_compute; repeat constructor; discriminate).
  rewrite lex_like_or.
  destruct (Sql.lex (split 32 (where_clause (t' :: terms)))) as [tokens|];
    [|reflexivity].
  cbn [fmap option_fmap option_map mbind option_bind].
  change (like_params (t :: t' :: terms))
    with ((37 :: t ++ [37]) :: like_params (t' :: terms)).
  rewrite parse_like_or.
  destruct (Sql.parse tokens (like_params (t' :: terms))) as [cond|];
    [|reflexivity].
  simpl. now rewrite andb_true_r.
Qed.

(** How the server reads the clause: [AND] binds the price test to the
    last [LIKE] only. *)
Lemma where_clause_reading terms last_term row :
  Sql.selects like (where_clause (terms ++ [last_term]))
              (like_params (terms ++ [last_term])) row
  = Some (existsb (fun p => like p (row_descri row)) (like_params terms)
          || (like (37 :: last_term ++ [37]) (row_descri row)
              && Sql.price_positive (row_precio row))).
Proof.
  induction terms as [|t terms IH]; [apply selects_one|].
  change ((t :: terms) ++ [last_term]) with (t :: (terms ++ [last_term])).
  destruct (terms ++ [last_term]) as [|t' rest] eqn:E;
    [now destruct terms|].
  rewrite selects_more, IH. simpl. now rewrite orb_assoc.
Qed.

End QueryFacts.

(** C1, at a request where the code departs from it: for the terms
    "martillo" and "clavo" the query holds two placeholders and the two
    terms are passed as parameters, but its WHERE clause is
    [Descri LIKE ? OR Descri LIKE ? AND PrecioFinal > 0], which the
    server reads as the first LIKE, or the second LIKE and the price
    test: a row that matches the first term and has no positive price is
    selected. *)
Theorem search_where_clause_precedence :
  let terms := [py "martillo"; py "clavo"] in
  let row := Sample.martillo_sin_precio in
  let run := search_multi (Sample.cfg None) (Sample.all_well [row])
                          [(py "query", py "martillo,clavo")] in
  fst run = [ SqlConnect (conn_str (Sample.cfg None)) 5;
              SqlExecute (search_query terms) (like_params terms) ]
  /\ where_clause terms = py "Descri LIKE ? OR Descri LIKE ? AND PrecioFinal > 0"
  /\ like_params terms = [py "%martillo%"; py "%clavo%"]
  /\ Sql.price_positive (row_precio row) = false
  /\ Sql.selects Sample.like (where_clause terms) (like_params terms) row
     = Some true
  /\ Sql.matches_and_priced Sample.like (like_params terms) row = false.
Proof. vm_compute. repeat split; reflexivity. Qed.

(* ================================================================== *)
(** * Further properties of the text operations *)
(* ================================================================== *)

Section TextMore.
Context {db : UnicodeDB}.

Lemma filter_cons_space c s :
  isspace c = true ->
  List.filter not_space (c :: s) = List.filter not_space s.
Proof. intros H. cbn [List.filter]. unfold not_space at 1. now rewrite H. Qed.

Lemma filter_cons_other c s :
  isspace c = false ->
  List.filter not_space (c :: s) = c :: List.filter not_space s.
Proof. intros H. cbn [List.filter]. unfold not_space at 1. now rewrite H. Qed.

Lemma filter_lstrip s :
  List.filter not_space (lstrip s) = List.filter not_space s.
Proof.
  induction s as [|c s IH]; [reflexivity|]. cbn [lstrip].
  destruct (isspace c) eqn:E; [|reflexivity].
  now rewrite filter_cons_space.
Qed.

Lemma filter_trim_right s :
  List.filter not_space (Spec.trim_right s) = List.filter not_space s.
Proof.
  induction s as [|c s IH]; [reflexivity|]. cbn [Spec.trim_right].
  destruct (Spec.trim_right s) as [|d r].
  - destruct (isspace c) eqn:E.
    + now rewrite filter_cons_space, <- IH.
    + now rewrite !(filter_cons_other c), <- IH by assumption.
  - destruct (isspace c) eqn:E.
    + now rewrite !(filter_cons_space c), IH.
    + now rewrite !(filter_cons_other c), IH.
Qed.

Lemma filter_collapse s :
  List.filter not_space (Spec.collapse_whitespace s) = List.filter not_space s.
Proof.
  apply (collapse_ind (fun s r => List.filter not_space r = List.filter not_space s)).
  - reflexivity.
  - intros c t Hc IH.
    rewrite (filter_cons_space 32) by reflexivity.
    now rewrite (filter_cons_space c), IH, filter_lstrip.
  - intros c t Hc IH. now rewrite !(filter_cons_other c), IH.
Qed.

(** What is left of a text once normalised: its characters other than
    whitespace, in order. *)
Lemma filter_normalize c s :
  List.filter not_space (Spec.normalize (Some (c :: s)))
  = List.filter not_space (map Spec.fold_accent (lower (c :: s))).
Proof.
  unfold Spec.normalize, Spec.trim.
  now rewrite filter_trim_right, filter_lstrip, filter_collapse.
Qed.

Lemma normalize_folded text :
  Forall (fun c => Spec.fold_accent c = c) (Spec.normalize text).
Proof.
  destruct text as [[|c s]|]; try constructor.
  apply Forall_trim, Forall_collapse; [reflexivity|].
  apply List.Forall_forall. intros x Hx.
  apply in_map_iff in Hx as (y & <- & _). apply fold_accent_idem.
Qed.

Lemma elem_of_extractKeywords description k :
  k ∈ Spec.extractKeywords description
  <-> exists t, In t (Spec.surviving description)
                /\ (k = t \/ k = Spec.variant t).
Proof.
  unfold Spec.extractKeywords.
  rewrite elem_of_list_to_set, list_elem_of_In, in_flat_map.
  split; intros (t & Ht & Hk); exists t; (split; [exact Ht|]);
    simpl in *; intuition.
Qed.

Lemma surviving_survives description t :
  In t (Spec.surviving description) ->
  (2 < length t)%nat /\ t ∉ Spec.stop_list.
Proof.
  unfold Spec.surviving. intros H. apply filter_In in H as [_ H].
  unfold Spec.survives in H. apply andb_prop in H as [H2 Hst].
  apply bool_decide_eq_true in H2, Hst. now split.
Qed.

Lemma variant_cases t :
  (last t = Some 115 /\ (3 < length t)%nat
   /\ t = Spec.variant t ++ [115]
   /\ length (Spec.variant t) = (length t - 1)%nat)
  \/ Spec.variant t = t ++ [115].
Proof.
  unfold Spec.variant.
  destruct (bool_decide (last t = Some 115)) eqn:E1; [|now right].
  destruct (bool_decide (3 < length t)%nat) eqn:E2; [|now right].
  apply bool_decide_eq_true in E1, E2. left.
  split; [exact E1|]. split; [exact E2|]. cbn [andb].
  destruct t as [|x l] using rev_ind; [discriminate|].
  rewrite last_snoc in E1. injection E1 as ->.
  rewrite length_app. cbn [length].
  replace (length l + 1 - 1)%nat with (length l) by lia.
  rewrite take_app_length. split; [reflexivity | lia].
Qed.

Lemma stop_list_not_plural :
  Forall (fun sw => (length sw <= 3)%nat \/ last sw <> Some 115) Spec.stop_list.
Proof.
  unfold Spec.stop_list.
  repeat (constructor; [first [left; vm_compute; lia | right; vm_compute; discriminate]|]).
  constructor.
Qed.

End TextMore.

(** X1: no text normalised by [normalize_text] holds one of the seven
    accented characters of [replacements] (á é í ó ú ñ ü). *)
Theorem normalize_text_no_accent (db : UnicodeDB) (text : option pystr) :
  map fst replacements = map (fun c => [c]) [225; 233; 237; 243; 250; 241; 252]
  /\ Forall (fun c => c ∉ [225; 233; 237; 243; 250; 241; 252])
            (normalize_text text).
Proof.
  split; [now rewrite replacements_codes|].
  rewrite normalize_text_normalize.
  eapply Forall_impl; [apply normalize_folded|].
  intros c Hc Hin.
  repeat (apply elem_of_cons in Hin as [->|Hin]; [vm_compute in Hc; discriminate|]).
  inversion Hin.
Qed.

(** X2: [normalize_text] only drops or changes whitespace: the other
    characters of the result are those of the lower-cased text with the
    accents replaced, in the same order. *)
Theorem normalize_text_keeps_content (db : UnicodeDB) (c : Z) (s : pystr) :
  List.filter not_space (normalize_text (Some (c :: s)))
  = List.filter not_space (map Spec.fold_accent (lower (c :: s))).
Proof. rewrite normalize_text_normalize. apply filter_normalize. Qed.

(** X3: every keyword [extract_keywords] returns has at least 3
    characters. *)
Theorem extract_keywords_min_length (db : UnicodeDB)
        (description : option pystr) :
  set_Forall (fun k : pystr => (3 <= length k)%nat)
             (extract_keywords description).
Proof.
  intros k Hk. rewrite extract_keywords_extractKeywords in Hk.
  apply elem_of_extractKeywords in Hk as (t & Ht & Hk).
  apply surviving_survives in Ht as [H2 _].
  destruct Hk as [->| ->]; [lia|].
  destruct (variant_cases t) as [(_ & H3 & _ & Hlen)| ->].
  - lia.
  - rewrite length_app. simpl. lia.
Qed.

(** X4: stop-words are filtered before the variants are added, so a
    stop-word can still be returned: it is then the singular of a
    surviving token, never a token of the description ("unas" gives
    "una"). *)
Theorem extract_keywords_stop_word (db : UnicodeDB)
        (description : option pystr) (k : pystr)
        (Hk : k ∈ extract_keywords description)
        (Hstop : k ∈ Spec.stop_list) :
  In (k ++ py "s") (Spec.surviving description)
  /\ ~ In k (Spec.surviving description).
Proof.
  rewrite extract_keywords_extractKeywords in Hk.
  apply elem_of_extractKeywords in Hk as (t & Ht & Hk).
  pose proof (surviving_survives _ _ Ht) as [H2 Hns].
  split.
  - destruct Hk as [->|Hk]; [contradiction|].
    destruct (variant_cases t) as [(_ & _ & Ht' & _)|E].
    + rewrite <- Hk in Ht'. change (py "s") with [115]. now rewrite <- Ht'.
    + exfalso. rewrite E in Hk. subst k.
      pose proof stop_list_not_plural as Hp.
      rewrite List.Forall_forall in Hp.
      destruct (Hp (t ++ [115])) as [Hlen|Hlast].
      * now apply list_elem_of_In.
      * rewrite length_app in Hlen. simpl in Hlen. lia.
      * apply Hlast. apply last_snoc.
  - intros Hin. apply surviving_survives in Hin as [_ Hn]. contradiction.
Qed.

Lemma extract_keywords_stop_word_witness :
  In (py "una" ++ py "s")
     (@Spec.surviving latin1 (Some (py "Unas tuercas")))
  /\ ~ In (py "una") (@Spec.surviving latin1 (Some (py "Unas tuercas"))).
Proof.
  apply (extract_keywords_stop_word latin1 (Some (py "Unas tuercas")) (py "una")).
  - apply (bool_decide_eq_true_1 _). vm_compute. reflexivity.
  - apply (bool_decide_eq_true_1 _). vm_compute. reflexivity.
Defined.

(** X5: the keywords of a description are those of its normalised
    text, so they can be recomputed from [descripcion_normalizada]. *)
Theorem extract_keywords_of_normalized (db : UnicodeDB)
        (Hlower : LowerStable db) (description : option pystr) :
  extract_keywords (Some (normalize_text description))
  = extract_keywords description
  /\ forall (w : world) (n : nat) (row : stock_row),
       extract_keywords (Some (descripcion_normalizada (make_product w n row)))
       = keywords (make_product w n row).
Proof.
  assert (H : forall d, extract_keywords (Some (normalize_text d))
                        = extract_keywords d).
  { intros d. rewrite !extract_keywords_extractKeywords.
    unfold Spec.extractKeywords, Spec.surviving.
    now rewrite normalize_text_normalize, normalize_idem. }
  split; [apply H|]. intros w n row. apply H.
Qed.

Lemma extract_keywords_of_normalized_witness :
  @extract_keywords latin1
    (Some (@normalize_text latin1 (Some (py "Tornillos  de ACERO"))))
  = @extract_keywords latin1 (Some (py "Tornillos  de ACERO")).
Proof.
  exact (proj1 (extract_keywords_of_normalized latin1 latin1_lower_stable
                  (Some (py "Tornillos  de ACERO")))).
Defined.

(* ================================================================== *)
(** * Further properties of the synchronisation *)
(* ================================================================== *)

Section SyncMore.
Context {db : UnicodeDB}.
Variable cfg : config.
Variable w : world.

Lemma attempted_prefix post k (bs : list (list product)) :
  fst (attempted post k bs) `prefix_of` bs.
Proof.
  revert k. induction bs as [|b bs IH]; intros k; [apply prefix_nil|].
  simpl. destruct (post_ok (post k b)).
  - specialize (IH (S k)). destruct (attempted post (S k) bs) as [a ok].
    now apply prefix_cons.
  - apply prefix_cons, prefix_nil.
Qed.

Lemma attempted_true post k (bs : list (list product)) :
  snd (attempted post k bs) = true -> fst (attempted post k bs) = bs.
Proof.
  revert k. induction bs as [|b bs IH]; intros k; [reflexivity|].
  simpl. destruct (post_ok (post k b)); [|discriminate].
  specialize (IH (S k)). destruct (attempted post (S k) bs) as [a ok].
  simpl in *. intros H. now rewrite IH.
Qed.

Lemma posted_post_calls bs : posted (map (post_call cfg) bs) = bs.
Proof. induction bs as [|b bs IH]; [reflexivity|]. simpl. now rewrite IH. Qed.

Lemma last_app_some {A} (l1 l2 : list A) y :
  last l2 = Some y -> last (l1 ++ l2) = Some y.
Proof. intros H. now rewrite last_app, H. Qed.

Lemma lookup_map {A B} (f : A -> B) (l : list A) i :
  map f l !! i = f <$> l !! i.
Proof.
  revert i. induction l as [|x l IH]; intros [|i]; try reflexivity.
  simpl. apply IH.
Qed.

(** The exception handler replaces five vowels, one pass through the
    table. *)
Lemma sync_handler_line e : sync_handler e = ([Print (failure_line e)], false).
Proof.
  assert (E : foldl (fun msg '(a, b) => str_replace a b msg) e
                [ (py "ó", py "o"); (py "í", py "i"); (py "á", py "a");
                  (py "é", py "e"); (py "ú", py "u") ]
              = map plain_vowel e).
  { change (foldl (fun msg '(a, b) => str_replace a b msg) e
              [ (py "ó", py "o"); (py "í", py "i"); (py "á", py "a");
                (py "é", py "e"); (py "ú", py "u") ])
      with (str_replace [250] [117]
              (str_replace [233] [101]
                 (str_replace [225] [97]
                    (str_replace [237] [105] (str_replace [243] [111] e))))).
    unfold str_replace. rewrite !replace_go_char, !map_map.
    apply map_ext. intros c. unfold plain_vowel.
    destruct (Z.eq_dec c 243) as [->|?]; [reflexivity|].
    destruct (Z.eq_dec c 237) as [->|?]; [reflexivity|].
    destruct (Z.eq_dec c 225) as [->|?]; [reflexivity|].
    destruct (Z.eq_dec c 233) as [->|?]; [reflexivity|].
    destruct (Z.eq_dec c 250) as [->|?]; [reflexivity|].
    now repeat (rewrite (proj2 (Z.eqb_neq c _)) by assumption). }
  unfold sync_handler, failure_line. cbv zeta. now rewrite E.
Qed.

(** When the loop ends well, its last line reports every record of the
    batches it went through. *)
Lemma insert_batches_last products starts total :
  succeeded (snd (insert_batches cfg w products starts total)) = true ->
  last (fst (insert_batches cfg w products starts total))
  = Some (Print (completed_line
                   (total + length (concat
                      (map (fun i => slice products i (i + batch_size)) starts))))).
Proof.
  revert total. induction starts as [|i starts IH]; intros total.
  - intros _. rewrite insert_batches_done. cbn [map concat length fst last].
    now rewrite Nat.add_0_r.
  - cbn [insert_batches map concat].
    set (batch := slice products i (i + batch_size)).
    unfold call, bind, emit, ret.
    destruct (http_post w (i / batch_size) batch) as [r|e]; [|discriminate].
    destruct (bool_decide (status_code r ∈ [200; 201; 204])); [|discriminate].
    specialize (IH (total + length batch)%nat).
    destruct (insert_batches cfg w products starts (total + length batch))
      as [t o].
    cbn [fst snd] in *. intros H. specialize (IH H).
    rewrite length_app, Nat.add_assoc.
    apply (last_app_some [_]), (last_app_some [_]). exact IH.
Qed.

(** When an insert raises, the loop raises. *)
Lemma insert_batches_raises products starts k total j i e :
  map (fun i => (i / batch_size)%nat) starts = seq k (length starts) ->
  starts !! j = Some i ->
  (forall j' i', (j' < j)%nat -> starts !! j' = Some i' ->
     post_ok (http_post w (k + j')
                (slice products i' (i' + batch_size))) = true) ->
  http_post w (k + j) (slice products i (i + batch_size)) = Raises e ->
  snd (insert_batches cfg w products starts total) = Raises e.
Proof.
  revert k total j. induction starts as [|i0 starts IH];
    intros k total j Hidx Hj Hbefore Hraise; [discriminate|].
  assert (Hi : (i0 / batch_size)%nat = k) by (now injection Hidx).
  assert (Hidx' : map (fun i => (i / batch_size)%nat) starts
                  = seq (S k) (length starts)) by (now injection Hidx).
  cbn [insert_batches]. rewrite Hi.
  set (batch := slice products i0 (i0 + batch_size)).
  unfold call, bind, emit, ret.
  destruct j as [|j]; simpl in Hj.
  - injection Hj as ->. rewrite Nat.add_0_r in Hraise. fold batch in Hraise.
    now rewrite Hraise.
  - pose proof (Hbefore 0%nat i0 ltac:(lia) eq_refl) as H0.
    rewrite Nat.add_0_r in H0. fold batch in H0.
    unfold post_ok in H0.
    destruct (http_post w k batch) as [r|e0]; [|discriminate].
    rewrite H0.
    specialize (IH (S k) (total + length batch)%nat j Hidx' Hj).
    destruct (insert_batches cfg w products starts (total + length batch))
      as [t o].
    cbn [snd] in *. apply IH.
    + intros j' i' Hlt Hi'.
      replace (S k + j')%nat with (k + S j')%nat by lia.
      apply Hbefore; [lia | exact Hi'].
    + now replace (S k + j)%nat with (k + S j)%nat by lia.
Qed.

(** A run that does not get to read the catalogue. *)
Lemma sync_run_unconfigured :
  negb (truthy (SUPABASE_URL cfg)) || negb (truthy (SUPABASE_KEY cfg)) = true ->
  sync_catalog_to_supabase cfg w
  = ([Print (py "Supabase no configurado, saltando sincronizacion.")], false).
Proof. intros H. unfold sync_catalog_to_supabase. now rewrite H. Qed.

Hypothesis Hurl : truthy (SUPABASE_URL cfg) = true.
Hypothesis Hkey : truthy (SUPABASE_KEY cfg) = true.

Lemma sync_run_connect_raises e :
  sql_connect w = Raises e ->
  fst (sync_catalog_to_supabase cfg w)
  = [ Print (py "Iniciando sincronizacion del catalogo - " ++ dt_str (now w 0));
      SqlConnect (conn_str cfg) 30;
      Print (failure_line e) ]
  /\ snd (sync_catalog_to_supabase cfg w) = false.
Proof.
  intros Hc. unfold sync_catalog_to_supabase. rewrite Hurl, Hkey.
  cbn [negb orb]. unfold sync_body, read_products, call, emit, ret, bind.
  rewrite Hc. unfold try_except. rewrite sync_handler_line.
  split; reflexivity.
Qed.

Lemma sync_run_query_raises u e :
  sql_connect w = Returns u ->
  sql_catalog w catalog_query = Raises e ->
  fst (sync_catalog_to_supabase cfg w)
  = [ Print (py "Iniciando sincronizacion del catalogo - " ++ dt_str (now w 0));
      SqlConnect (conn_str cfg) 30;
      SqlExecute catalog_query [];
      Print (failure_line e) ]
  /\ snd (sync_catalog_to_supabase cfg w) = false.
Proof.
  intros Hc Hq. unfold sync_catalog_to_supabase. rewrite Hurl, Hkey.
  cbn [negb orb]. unfold sync_body, read_products, call, emit, ret, bind.
  rewrite Hc, Hq. unfold try_except. rewrite sync_handler_line.
  split; reflexivity.
Qed.

End SyncMore.

(** X6: the synchronisation touches the mirror store only after it has
    read the catalogue: when the mirror is not configured it does nothing
    but print, and when the connection or the query raises it makes no
    call to the mirror, prints the failure and returns [False]. *)
Theorem sync_without_catalogue (db : UnicodeDB) (cfg : config) (w : world) :
  let run := sync_catalog_to_supabase cfg w in
  (negb (truthy (SUPABASE_URL cfg)) || negb (truthy (SUPABASE_KEY cfg)) = true ->
   run = ([Print (py "Supabase no configurado, saltando sincronizacion.")],
          false))
  /\ (truthy (SUPABASE_URL cfg) = true -> truthy (SUPABASE_KEY cfg) = true ->
      (forall e, sql_connect w = Raises e ->
         http_calls (fst run) = []
         /\ ~ (exists query params, SqlExecute query params ∈ fst run)
         /\ last (fst run) = Some (Print (failure_line e))
         /\ snd run = false)
      /\ (forall u e, sql_connect w = Returns u ->
            sql_catalog w catalog_query = Raises e ->
            http_calls (fst run) = []
            /\ last (fst run) = Some (Print (failure_line e))
            /\ snd run = false)).
Proof.
  intros run. split; [apply sync_run_unconfigured|].
  intros Hurl Hkey. split.
  - intros e He.
    destruct (sync_run_connect_raises cfg w Hurl Hkey e He) as [Ht Hr].
    fold run in Ht, Hr. rewrite Ht, Hr. repeat split; try reflexivity.
    intros (q & ps & Hin).
    repeat (apply elem_of_cons in Hin as [Hin|Hin]; [discriminate|]).
    inversion Hin.
  - intros u e Hu He.
    destruct (sync_run_query_raises cfg w Hurl Hkey u e Hu He) as [Ht Hr].
    fold run in Ht, Hr. rewrite Ht, Hr. repeat split; reflexivity.
Qed.

(** X7: in every run, the calls to the mirror store are none, or one
    bulk delete followed by inserts only; the inserts carry, in order,
    the first batches of 1000 of the products read, and every call goes
    to the URL and with the headers of the configuration. *)
Theorem sync_calls_shape (db : UnicodeDB) (cfg : config) (w : world) :
  let run := sync_catalog_to_supabase cfg w in
  http_calls (fst run) = []
  \/ exists rows batches,
       sql_catalog w catalog_query = Returns rows
       /\ batches `prefix_of` Spec.batches 1000 (products_of w rows)
       /\ http_calls (fst run)
          = HttpDelete (or_empty (SUPABASE_URL cfg)
                        ++ py "/rest/v1/productos_catalogo")
                       (supabase_headers cfg) [(py "codigo", py "not.is.null")]
            :: map (HttpPost (or_empty (SUPABASE_URL cfg)
                              ++ py "/rest/v1/productos_catalogo")
                             (supabase_headers cfg)) batches.
Proof.
  intros run.
  destruct (negb (truthy (SUPABASE_URL cfg)) || negb (truthy (SUPABASE_KEY cfg)))
    eqn:Hcfg.
  { left. unfold run. now rewrite (sync_run_unconfigured cfg w Hcfg). }
  apply orb_false_elim in Hcfg as [Hurl Hkey].
  apply negb_false_iff in Hurl, Hkey.
  destruct (sql_connect w) as [[]|e] eqn:Hc.
  2:{ left. destruct (sync_run_connect_raises cfg w Hurl Hkey e Hc) as [Ht _].
      fold run in Ht. now rewrite Ht. }
  destruct (sql_catalog w catalog_query) as [rows|e] eqn:Hq.
  2:{ left. destruct (sync_run_query_raises cfg w Hurl Hkey tt e Hc Hq) as [Ht _].
      fold run in Ht. now rewrite Ht. }
  right. exists rows.
  destruct (http_delete w) as [r|e] eqn:Hd.
  - destruct (sync_run_calls cfg w rows Hurl Hkey Hc Hq r Hd) as [Hcalls _].
    fold run in Hcalls.
    exists (fst (attempted (http_post w) 0
                   (Spec.batches 1000 (products_of w rows)))).
    split; [reflexivity|]. split; [apply attempted_prefix|]. exact Hcalls.
  - destruct (sync_run_delete_raises cfg w rows Hurl Hkey Hc Hq e Hd) as [Hcalls _].
    fold run in Hcalls. exists [].
    split; [reflexivity|]. split; [apply prefix_nil|]. exact Hcalls.
Qed.

(** X8: a run that returns [True] has read the catalogue and posted
    every product exactly once, in the order of the rows, and its last
    line reports as many records as rows were read. *)
Theorem sync_success_is_complete (db : UnicodeDB) (cfg : config) (w : world)
        (Hok : snd (sync_catalog_to_supabase cfg w) = true) :
  exists rows,
    sql_catalog w catalog_query = Returns rows
    /\ concat (posted (fst (sync_catalog_to_supabase cfg w)))
       = products_of w rows
    /\ map codigo (products_of w rows) = map row_codigo rows
    /\ last (fst (sync_catalog_to_supabase cfg w))
       = Some (Print (completed_line (length rows))).
Proof.
  set (run := sync_catalog_to_supabase cfg w) in *.
  destruct (negb (truthy (SUPABASE_URL cfg)) || negb (truthy (SUPABASE_KEY cfg)))
    eqn:Hcfg.
  { unfold run in Hok. now rewrite (sync_run_unconfigured cfg w Hcfg) in Hok. }
  apply orb_false_elim in Hcfg as [Hurl Hkey].
  apply negb_false_iff in Hurl, Hkey.
  destruct (sql_connect w) as [[]|e] eqn:Hc.
  2:{ destruct (sync_run_connect_raises cfg w Hurl Hkey e Hc) as [_ Hr].
      fold run in Hr. congruence. }
  destruct (sql_catalog w catalog_query) as [rows|e] eqn:Hq.
  2:{ destruct (sync_run_query_raises cfg w Hurl Hkey tt e Hc Hq) as [_ Hr].
      fold run in Hr. congruence. }
  destruct (http_delete w) as [r|e] eqn:Hd.
  2:{ destruct (sync_run_delete_raises cfg w rows Hurl Hkey Hc Hq e Hd) as [_ Hr].
      fold run in Hr. congruence. }
  exists rows. split; [reflexivity|].
  destruct (sync_run_calls cfg w rows Hurl Hkey Hc Hq r Hd) as [Hcalls Hres].
  fold run in Hcalls, Hres. rewrite Hok in Hres. symmetry in Hres.
  rewrite (attempted_true _ _ _ Hres) in Hcalls.
  split; [|split].
  - rewrite <- posted_http_calls, Hcalls.
    change (posted (delete_call cfg :: ?l)) with (posted l).
    rewrite posted_post_calls. apply batches_concat. unfold batch_size. lia.
  - unfold products_of.
    assert (E : forall f : nat -> stock_row -> product,
               (forall n row, codigo (f n row) = row_codigo row) ->
               map codigo (imap f rows) = map row_codigo rows).
    { clear. induction rows as [|row rows IH]; intros f Hf; [reflexivity|].
      cbn [imap map]. rewrite Hf. f_equal. apply IH.
      intros n row'. apply Hf. }
    apply E. reflexivity.
  - destruct (sync_run_delete_returns cfg w rows Hurl Hkey Hc Hq r Hd)
      as (before & Hfst & _ & Hsnd).
    fold run in Hfst, Hsnd. rewrite Hok in Hsnd. symmetry in Hsnd.
    pose proof (insert_batches_last cfg w _ _ _ Hsnd) as Hlast.
    rewrite slices_batches, batches_concat, Nat.add_0_l in Hlast
      by (unfold batch_size; lia).
    unfold products_of in Hlast at 3. rewrite length_imap in Hlast.
    rewrite Hfst. apply last_app_some. apply (last_app_some [_]).
    apply last_app_some.
    destruct (snd (insert_batches cfg w (products_of w rows)
                     (range_step 0 (length (products_of w rows)) batch_size) 0))
      as [b|e]; [|discriminate].
    now rewrite app_nil_r.
Qed.

Lemma sync_success_is_complete_witness :
  exists rows,
    sql_catalog (Sample.all_well [Sample.martillo; Sample.martillo_sin_precio])
                catalog_query = Returns rows
    /\ concat (posted (fst (@sync_catalog_to_supabase latin1 (Sample.cfg None)
                 (Sample.all_well [Sample.martillo; Sample.martillo_sin_precio]))))
       = @products_of latin1
           (Sample.all_well [Sample.martillo; Sample.martillo_sin_precio]) rows
    /\ map codigo (@products_of latin1
         (Sample.all_well [Sample.martillo; Sample.martillo_sin_precio]) rows)
       = map row_codigo rows
    /\ last (fst (@sync_catalog_to_supabase latin1 (Sample.cfg None)
              (Sample.all_well [Sample.martillo; Sample.martillo_sin_precio])))
       = Some (Print (completed_line (length rows))).
Proof.
  apply (sync_success_is_complete latin1 (Sample.cfg None)
           (Sample.all_well [Sample.martillo; Sample.martillo_sin_precio])).
  vm_compute. reflexivity.
Defined.

(** X9: when the insert of a batch raises, after the earlier ones
    succeeded, the run posts no later batch, prints the exception with
    its accented vowels replaced as its last line, and returns
    [False]. *)
Theorem sync_insert_raises (db : UnicodeDB) (cfg : config) (w : world)
        (rows : list stock_row) (deleted : response)
        (k : nat) (b : list product) (e : pystr)
        (Hurl : truthy (SUPABASE_URL cfg) = true)
        (Hkey : truthy (SUPABASE_KEY cfg) = true)
        (Hconnect : sql_connect w = Returns tt)
        (Hcatalog : sql_catalog w catalog_query = Returns rows)
        (Hdelete : http_delete w = Returns deleted)
        (Hb : Spec.batches 1000 (products_of w rows) !! k = Some b)
        (Hbefore : forall j b', (j < k)%nat ->
                     Spec.batches 1000 (products_of w rows) !! j = Some b' ->
                     post_ok (http_post w j b') = true)
        (Hraise : http_post w k b = Raises e) :
  let run := sync_catalog_to_supabase cfg w in
  posted (fst run) = take (S k) (Spec.batches 1000 (products_of w rows))
  /\ last (fst run) = Some (Print (failure_line e))
  /\ snd run = false.
Proof.
  intros run.
  destruct (sync_run_calls cfg w rows Hurl Hkey Hconnect Hcatalog deleted Hdelete)
    as [Hcalls Hres].
  fold run in Hcalls, Hres. change batch_size with 1000%nat in Hcalls, Hres.
  rewrite (attempted_first_failure (http_post w) 0 _ k b Hb Hbefore) in Hcalls, Hres
    by (simpl; now rewrite Hraise).
  split; [|split; [|exact Hres]].
  - rewrite <- posted_http_calls, Hcalls.
    change (posted (delete_call cfg :: ?l)) with (posted l).
    apply posted_post_calls.
  - destruct (sync_run_delete_returns cfg w rows Hurl Hkey Hconnect Hcatalog
                deleted Hdelete) as (before & Hfst & _ & _).
    fold run in Hfst. rewrite Hfst.
    assert (Hloop : snd (insert_batches cfg w (products_of w rows)
                           (range_step 0 (length (products_of w rows)) batch_size) 0)
                    = Raises e).
    { pose proof (slices_batches batch_size (products_of w rows)
                    ltac:(unfold batch_size; lia)) as Hs.
      pose proof Hs as Hs0.
      change batch_size with 1000%nat in Hs at 3. rewrite <- Hs in Hb, Hbefore.
      rewrite lookup_map in Hb.
      destruct (range_step 0 (length (products_of w rows)) batch_size !! k)
        as [i|] eqn:Hi; [|discriminate].
      injection Hb as Hb.
      apply (insert_batches_raises cfg w _ _ 0 0 k i e).
      - rewrite range_step_index by (unfold batch_size; lia).
        f_equal. rewrite <- Hs0. now rewrite length_map.
      - exact Hi.
      - intros j' i' Hlt Hi'. apply (Hbefore j'); [exact Hlt|].
        now rewrite lookup_map, Hi'.
      - simpl. now rewrite Hb. }
    rewrite Hloop, sync_handler_line.
    apply last_app_some, (last_app_some [_]), last_app_some, last_app_some.
    reflexivity.
Qed.

Lemma sync_insert_raises_witness :
  let w := Sample.world_of [Sample.martillo] (Returns Sample.no_content)
             (fun _ => Raises (py "conexión rechazada")) in
  let run := @sync_catalog_to_supabase latin1 (Sample.cfg None) w in
  posted (fst run)
  = take 1 (Spec.batches 1000 (@products_of latin1 w [Sample.martillo]))
  /\ last (fst run) = Some (Print (failure_line (py "conexión rechazada")))
  /\ snd run = false.
Proof.
  refine (sync_insert_raises latin1 (Sample.cfg None)
            (Sample.world_of [Sample.martillo] (Returns Sample.no_content)
               (fun _ => Raises (py "conexión rechazada")))
            [Sample.martillo] Sample.no_content 0%nat _ (py "conexión rechazada")
            eq_refl eq_refl eq_refl eq_refl eq_refl eq_refl _ eq_refl).
  intros j b' Hj. lia.
Defined.

(* ================================================================== *)
(** * Further properties of the search *)
(* ================================================================== *)

Section SearchMore.

Lemma strip_idem s : strip (strip s) = strip s.
Proof. rewrite !strip_trim. apply trim_idem. Qed.

Lemma strip_snoc_space s c : isspace c = true -> strip (s ++ [c]) = strip s.
Proof.
  intros Hc. unfold strip. rewrite lstrip_app.
  destruct (lstrip s) as [|x r] eqn:E.
  - simpl. now rewrite Hc.
  - unfold rstrip. rewrite rev_app_distr. simpl. now rewrite Hc.
Qed.

Lemma strip_cons_space s c : isspace c = true -> strip (c :: s) = strip s.
Proof. intros Hc. unfold strip. simpl. now rewrite Hc. Qed.

Lemma split_pieces sep s : Forall (Forall (fun c => c <> sep)) (split sep s).
Proof.
  induction s as [|c s IH]; simpl; [repeat constructor|].
  destruct (Z.eqb_spec c sep) as [->|Hne].
  - constructor; [constructor | exact IH].
  - destruct (split sep s) as [|h t]; [repeat constructor; assumption|].
    inversion IH; subst. constructor; [constructor|]; assumption.
Qed.

Lemma split_whole sep s : Forall (fun c => c <> sep) s -> split sep s = [s].
Proof.
  induction 1 as [|c s Hc _ IH]; [reflexivity|]. simpl.
  now rewrite (proj2 (Z.eqb_neq c sep) Hc), IH.
Qed.

Lemma split_snoc sep s c :
  c <> sep ->
  exists pieces piece,
    split sep s = pieces ++ [piece]
    /\ split sep (s ++ [c]) = pieces ++ [piece ++ [c]].
Proof.
  intros Hc. induction s as [|d s (pieces & piece & E1 & E2)]; simpl.
  - exists [], []. rewrite (proj2 (Z.eqb_neq c sep) Hc). now split.
  - destruct (d =? sep).
    + exists ([] :: pieces), piece. rewrite E1, E2. now split.
    + rewrite E1, E2. destruct pieces as [|h t]; simpl.
      * exists [], (d :: piece). now split.
      * exists ((d :: h) :: t), piece. now split.
Qed.

Lemma parse_terms_app pieces piece :
  map strip (List.filter (fun t => truthy (Some (strip t))) (pieces ++ [piece]))
  = map strip (List.filter (fun t => truthy (Some (strip t))) pieces)
    ++ (if truthy (Some (strip piece)) then [strip piece] else []).
Proof.
  rewrite List.filter_app, map_app. f_equal. cbn [List.filter].
  now destruct (truthy (Some (strip piece))).
Qed.

Lemma parse_terms_snoc_space q c :
  isspace c = true -> parse_terms (q ++ [c]) = parse_terms q.
Proof.
  intros Hc. unfold parse_terms.
  destruct (split_snoc 44 q c) as (pieces & piece & -> & ->).
  { intros ->. discriminate. }
  now rewrite !parse_terms_app, strip_snoc_space.
Qed.

Lemma parse_terms_cons_space q c :
  isspace c = true -> parse_terms (c :: q) = parse_terms q.
Proof.
  intros Hc. unfold parse_terms. cbn [split].
  destruct (Z.eqb_spec c 44) as [->|_]; [discriminate|].
  pose proof (split_nonempty 44 q) as Hne.
  destruct (split 44 q) as [|h t]; [congruence|].
  cbn [List.filter]. rewrite (strip_cons_space h c Hc).
  destruct (truthy (Some (strip h))); cbn [map];
    now rewrite ?(strip_cons_space h c Hc).
Qed.

Lemma parse_terms_lstrip q : parse_terms (lstrip q) = parse_terms q.
Proof.
  induction q as [|c q IH]; [reflexivity|]. cbn [lstrip].
  destruct (isspace c) eqn:Hc; [|reflexivity].
  now rewrite IH, parse_terms_cons_space.
Qed.

Lemma parse_terms_rstrip q : parse_terms (rstrip q) = parse_terms q.
Proof.
  unfold rstrip. rewrite <- (rev_involutive q) at 2.
  induction (rev q) as [|c r IH]; [reflexivity|]. cbn [lstrip rev].
  destruct (isspace c) eqn:Hc.
  - now rewrite IH, parse_terms_snoc_space.
  - reflexivity.
Qed.

Lemma split_join ts :
  ts <> [] -> Forall (Forall (fun c => c <> 44)) ts ->
  split 44 (join [44] ts) = ts.
Proof.
  intros Hne H. induction H as [|t ts Ht Hts IH]; [congruence|].
  destruct ts as [|t' ts'].
  - simpl. now apply split_whole.
  - change (join [44] (t :: t' :: ts')) with (t ++ 44 :: join [44] (t' :: ts')).
    rewrite split_word by assumption. f_equal. now apply IH.
Qed.

(** A dictionary built from distinct keys keeps the pairs as they come. *)
Lemma dict_set_new {V} (d : list (pystr * V)) k v :
  k ∉ map fst d -> dict_set d k v = d ++ [(k, v)].
Proof.
  induction d as [|[k' v'] d IH]; intros Hk; [reflexivity|].
  cbn [dict_set map fst] in *. unfold pystr_eqb.
  apply not_elem_of_cons in Hk as [Hne Hk].
  rewrite bool_decide_eq_false_2 by congruence.
  now rewrite IH.
Qed.

Lemma dict_set_old {V} (d : list (pystr * V)) k v :
  k ∈ map fst d -> map fst (dict_set d k v) = map fst d.
Proof.
  induction d as [|[k' v'] d IH]; intros Hk; [now apply elem_of_nil in Hk|].
  cbn [dict_set map fst] in *. unfold pystr_eqb.
  destruct (decide (k' = k)) as [->|Hne].
  - now rewrite bool_decide_eq_true_2.
  - rewrite bool_decide_eq_false_2 by assumption.
    apply elem_of_cons in Hk as [->|Hk]; [congruence|].
    cbn [map fst]. now rewrite IH.
Qed.

Lemma dict_of_keys_NoDup {V} (pairs : list (pystr * V)) :
  NoDup (map fst (dict_of pairs)).
Proof.
  unfold dict_of.
  assert (H : forall acc : list (pystr * V), NoDup (map fst acc) ->
             NoDup (map fst (foldl (fun d kv => dict_set d (fst kv) (snd kv))
                                   acc pairs))).
  { induction pairs as [|[k v] pairs IH]; intros acc Hacc; [exact Hacc|].
    cbn [foldl fst snd]. apply IH.
    destruct (decide (k ∈ map fst acc)) as [Hin|Hin].
    - now rewrite dict_set_old.
    - rewrite dict_set_new by assumption. rewrite map_app.
      apply NoDup_app. split; [assumption|]. split.
      + intros x Hx Hx'. apply list_elem_of_singleton in Hx'. now subst.
      + apply NoDup_singleton. }
  apply H. constructor.
Qed.

Lemma dict_of_distinct {V} (pairs : list (pystr * V)) :
  NoDup (map fst pairs) -> dict_of pairs = pairs.
Proof.
  unfold dict_of.
  assert (H : forall acc : list (pystr * V),
             NoDup (map fst (acc ++ pairs)) ->
             foldl (fun d kv => dict_set d (fst kv) (snd kv)) acc pairs
             = acc ++ pairs).
  { induction pairs as [|[k v] pairs IH]; intros acc Hnd.
    - now rewrite app_nil_r.
    - cbn [foldl fst snd]. rewrite dict_set_new.
      + rewrite IH; rewrite <- app_assoc; [reflexivity | exact Hnd].
      + rewrite map_app in Hnd. apply NoDup_app in Hnd as (_ & Hd & _).
        intros Hin. apply (Hd k); [assumption | now left]. }
  intros Hnd. now apply (H []).
Qed.

Lemma zip_keys {V} (columns : list pystr) (row : list V) c :
  c ∈ map fst (zip columns row) -> c ∈ columns.
Proof.
  revert row. induction columns as [|c0 columns IH]; intros [|v row] H;
    try (now apply elem_of_nil in H).
  cbn [zip zip_with map fst] in H.
  apply elem_of_cons in H as [->|H]; [now left|].
  right. exact (IH row H).
Qed.

Lemma zip_keys_NoDup {V} (columns : list pystr) (row : list V) :
  NoDup columns -> NoDup (map fst (zip columns row)).
Proof.
  intros Hnd. revert row. induction Hnd as [|c columns Hc Hnd IH];
    intros [|v row]; try constructor.
  - intros Hin. apply Hc. exact (zip_keys _ _ _ Hin).
  - apply IH.
Qed.

Variable cfg : config.
Variable w : world.

(** A request that gets to the [try] block. *)
Lemma search_multi_try args :
  args_get args (py "token") = API_TOKEN cfg ->
  parse_terms (strip (default [] (args_get args (py "query")))) <> [] ->
  search_multi cfg w args
  = try_except
      (search_body cfg w
         (parse_terms (strip (default [] (args_get args (py "query"))))))
      (fun e => ([], Jsonify (JsonError e) 500)).
Proof.
  intros Htok Hterms. unfold search_multi.
  rewrite (bool_decide_eq_true_2 _ Htok). cbn [negb].
  fold (parse_terms (strip (default [] (args_get args (py "query"))))).
  assert (Ht : truthy (Some (strip (default [] (args_get args (py "query")))))
               = true).
  { destruct (strip (default [] (args_get args (py "query")))) eqn:E;
      [now contradiction Hterms | reflexivity]. }
  rewrite Ht. cbn [negb]. now rewrite (bool_decide_eq_false_2 _ Hterms).
Qed.

Lemma search_multi_no_terms args :
  args_get args (py "token") = API_TOKEN cfg ->
  parse_terms (strip (default [] (args_get args (py "query")))) = [] ->
  fst (search_multi cfg w args) = []
  /\ status (snd (search_multi cfg w args)) = 400.
Proof.
  intros Htok Hterms. unfold search_multi.
  rewrite (bool_decide_eq_true_2 _ Htok). cbn [negb].
  fold (parse_terms (strip (default [] (args_get args (py "query"))))).
  destruct (negb (truthy _)); [split; reflexivity|].
  rewrite (bool_decide_eq_true_2 _ Hterms). split; reflexivity.
Qed.

Lemma search_try_connect_raises terms e :
  sql_connect w = Raises e ->
  try_except (search_body cfg w terms)
             (fun e => ([], Jsonify (JsonError e) 500))
  = ([SqlConnect (conn_str cfg) 5], Jsonify (JsonError e) 500).
Proof.
  intros H. unfold search_body, call, bind, ret, try_except. now rewrite H.
Qed.

Lemma search_try_query_raises terms u e :
  sql_connect w = Returns u ->
  sql_search w (search_query terms) (like_params terms) = Raises e ->
  try_except (search_body cfg w terms)
             (fun e => ([], Jsonify (JsonError e) 500))
  = ([SqlConnect (conn_str cfg) 5;
      SqlExecute (search_query terms) (like_params terms)],
     Jsonify (JsonError e) 500).
Proof.
  intros H1 H2. unfold search_body, call, bind, ret, try_except.
  now rewrite H1, H2.
Qed.

Lemma search_try_found terms u columns rows :
  sql_connect w = Returns u ->
  sql_search w (search_query terms) (like_params terms)
  = Returns (columns, rows) ->
  try_except (search_body cfg w terms)
             (fun e => ([], Jsonify (JsonError e) 500))
  = ([SqlConnect (conn_str cfg) 5;
      SqlExecute (search_query terms) (like_params terms)],
     Jsonify (JsonResults (length (map (make_record columns) rows))
                          (map (make_record columns) rows)) 200).
Proof.
  intros H1 H2. unfold search_body, call, bind, ret, try_except.
  now rewrite H1, H2.
Qed.

End SearchMore.


(** X10: a search answers 200, 400, 403 or 500 and nothing else; it
    does nothing with the database when the token is wrong or the query
    holds no term, and otherwise it opens one connection (timeout 5) and
    runs at most one statement, the search query with the terms as its
    parameters. *)
Theorem search_multi_database_use (cfg : config) (w : world)
        (args : list (pystr * pystr)) :
  let run := search_multi cfg w args in
  let terms := parse_terms (strip (default [] (args_get args (py "query")))) in
  status (snd run) ∈ [200; 400; 403; 500]
  /\ (fst run = []
      <-> (args_get args (py "token") <> API_TOKEN cfg \/ terms = []))
  /\ (fst run = [SqlConnect (conn_str cfg) 5]
      \/ fst run = [SqlConnect (conn_str cfg) 5;
                    SqlExecute (search_query terms) (like_params terms)]
      \/ fst run = []).
Proof.
  intros run terms.
  destruct (decide (args_get args (py "token") = API_TOKEN cfg)) as [Htok|Htok].
  2:{ unfold run. rewrite (search_multi_unauthorized cfg w args Htok).
      cbn [fst snd status]. split; [repeat constructor|].
      split; [|now right; right]. split; [now left | reflexivity]. }
  destruct (decide (terms = [])) as [Hterms|Hterms].
  { destruct (search_multi_no_terms cfg w args Htok Hterms) as [Hf Hs].
    fold run in Hf, Hs. rewrite Hf, Hs.
    split; [repeat constructor|].
    split; [|now right; right]. split; [now right | reflexivity]. }
  unfold run. rewrite (search_multi_try cfg w args Htok Hterms). fold terms.
  destruct (sql_connect w) as [u|e] eqn:Hc.
  - destruct (sql_search w (search_query terms) (like_params terms))
      as [[columns rows]|e] eqn:Hq.
    + rewrite (search_try_found cfg w terms u columns rows Hc Hq).
      cbn [fst snd status]. split; [repeat constructor|].
      split; [|now right; left]. split; [discriminate | tauto].
    + rewrite (search_try_query_raises cfg w terms u e Hc Hq).
      cbn [fst snd status]. split; [repeat constructor|].
      split; [|now right; left]. split; [discriminate | tauto].
  - rewrite (search_try_connect_raises cfg w terms e Hc).
    cbn [fst snd status]. split; [repeat constructor|].
    split; [|now left]. split; [discriminate | tauto].
Qed.

(** X11: when the database raises, on the connection or on the
    statement, the search answers 500 with the text of the exception as
    its error; after a refused connection no statement is run. *)
Theorem search_multi_database_failure (cfg : config) (w : world)
        (args : list (pystr * pystr)) (e : pystr)
        (Htoken : args_get args (py "token") = API_TOKEN cfg)
        (Hterms : parse_terms (strip (default [] (args_get args (py "query"))))
                  <> []) :
  let terms := parse_terms (strip (default [] (args_get args (py "query")))) in
  (sql_connect w = Raises e ->
   search_multi cfg w args
   = ([SqlConnect (conn_str cfg) 5], Jsonify (JsonError e) 500))
  /\ (forall u, sql_connect w = Returns u ->
        sql_search w (search_query terms) (like_params terms) = Raises e ->
        search_multi cfg w args
        = ([SqlConnect (conn_str cfg) 5;
            SqlExecute (search_query terms) (like_params terms)],
           Jsonify (JsonError e) 500)).
Proof.
  intros terms. rewrite (search_multi_try cfg w args Htoken Hterms).
  fold terms. split.
  - apply search_try_connect_raises.
  - intros u. apply search_try_query_raises.
Qed.

Lemma search_multi_database_failure_witness :
  search_multi (Sample.cfg None) (database_down (py "Login timeout expired"))
               [(py "query", py "martillo, clavo")]
  = ([SqlConnect (conn_str (Sample.cfg None)) 5],
     Jsonify (JsonError (py "Login timeout expired")) 500).
Proof.
  refine (proj1 (search_multi_database_failure (Sample.cfg None)
                   (database_down (py "Login timeout expired"))
                   [(py "query", py "martillo, clavo")]
                   (py "Login timeout expired") eq_refl _) eq_refl).
  vm_compute. discriminate.
Defined.

Lemma to_transport_zip columns row :
  map (fun kv : pystr * sqlval => (fst kv, to_transport (snd kv)))
      (zip columns row)
  = zip columns (map to_transport row).
Proof.
  revert row. induction columns as [|c columns IH]; intros [|v row];
    try reflexivity.
  cbn [zip zip_with map fst snd]. f_equal. apply IH.
Qed.

(** X12: when the database answers, the search answers 200 with one
    record per row, in the order of the rows, and [total] is the number
    of rows; in every record the keys are distinct and no value is a
    [Decimal] any more; with distinct column names a record pairs each
    column with the value of the row, decimals turned into floats. *)
Theorem search_multi_results (cfg : config) (w : world)
        (args : list (pystr * pystr)) (u : unit)
        (columns : list pystr) (rows : list (list sqlval))
        (Htoken : args_get args (py "token") = API_TOKEN cfg)
        (Hterms : parse_terms (strip (default [] (args_get args (py "query"))))
                  <> [])
        (Hconnect : sql_connect w = Returns u)
        (Hfound : sql_search w
                    (search_query (parse_terms
                       (strip (default [] (args_get args (py "query"))))))
                    (like_params (parse_terms
                       (strip (default [] (args_get args (py "query"))))))
                  = Returns (columns, rows)) :
  exists results,
    snd (search_multi cfg w args)
    = Jsonify (JsonResults (length rows) results) 200
    /\ results = map (make_record columns) rows
    /\ Forall (fun record : record =>
                 NoDup (map fst record)
                 /\ Forall (fun kv => forall d, snd kv <> SqlDecimal d) record)
              results
    /\ (NoDup columns ->
        results = map (fun row => zip columns (map to_transport row)) rows).
Proof.
  exists (map (make_record columns) rows).
  rewrite (search_multi_try cfg w args Htoken Hterms).
  rewrite (search_try_found cfg w _ u columns rows Hconnect Hfound).
  cbn [snd]. rewrite length_map. split; [reflexivity|]. split; [reflexivity|].
  split.
  - apply List.Forall_forall. intros rec Hrec.
    apply in_map_iff in Hrec as (row & <- & _). unfold make_record. split.
    + rewrite map_map. cbn [fst].
      change (map (fun x : pystr * sqlval => fst x)) with (map (@fst pystr sqlval)).
      apply dict_of_keys_NoDup.
    + apply List.Forall_forall. intros kv Hkv.
      apply in_map_iff in Hkv as ([k v] & <- & _). cbn [snd].
      intros d. destruct v; discriminate.
  - intros Hnd. apply map_ext. intros row. unfold make_record.
    rewrite dict_of_distinct by now apply zip_keys_NoDup.
    apply to_transport_zip.
Qed.

Lemma search_multi_results_witness :
  exists results,
    snd (search_multi (Sample.cfg None) (Sample.all_well [Sample.martillo])
                      [(py "query", py "martillo")])
    = Jsonify (JsonResults
                 (length (map Sample.as_values [Sample.martillo])) results) 200
    /\ results
       = map (make_record Sample.columns)
             (map Sample.as_values [Sample.martillo])
    /\ Forall (fun record : record =>
                 NoDup (map fst record)
                 /\ Forall (fun kv => forall d, snd kv <> SqlDecimal d) record)
              results
    /\ (NoDup Sample.columns ->
        results = map (fun row => zip Sample.columns (map to_transport row))
                      (map Sample.as_values [Sample.martillo])).
Proof.
  refine (search_multi_results (Sample.cfg None)
            (Sample.all_well [Sample.martillo])
            [(py "query", py "martillo")] tt Sample.columns
            (map Sample.as_values [Sample.martillo]) eq_refl _ eq_refl eq_refl).
  vm_compute. discriminate.
Defined.

(** X13: every term [search_multi] keeps is not empty, has no
    whitespace at either end and holds no comma; whitespace around the
    whole query changes nothing to the terms. *)
Theorem parse_terms_clean (query : pystr) :
  Forall clean_term (parse_terms query)
  /\ parse_terms (strip query) = parse_terms query.
Proof.
  split.
  - unfold parse_terms. apply List.Forall_forall. intros t Ht.
    apply in_map_iff in Ht as (piece & <- & Hp).
    apply filter_In in Hp as [Hp Hne]. split; [|split].
    + intros E. now rewrite E in Hne.
    + apply strip_idem.
    + rewrite strip_trim. apply Forall_trim.
      pose proof (split_pieces 44 query) as H.
      rewrite List.Forall_forall in H. now apply H.
  - unfold strip. now rewrite parse_terms_rstrip, parse_terms_lstrip.
Qed.

Lemma clean_terms_kept terms :
  Forall clean_term terms ->
  map strip (List.filter (fun t => truthy (Some (strip t))) terms) = terms.
Proof.
  induction 1 as [|x l (Hne & Hs & _) _ IH]; [reflexivity|].
  cbn [List.filter]. rewrite Hs.
  assert (Ht : truthy (Some x) = true) by (destruct x; [congruence|reflexivity]).
  rewrite Ht. cbn [map]. now rewrite Hs, IH.
Qed.

(** X14: terms written clean and joined with commas are read back as
    they were, in order and with their repetitions. *)
Theorem parse_terms_join (terms : list pystr)
        (Hclean : Forall clean_term terms) :
  parse_terms (join [44] terms) = terms
  /\ parse_terms (strip (join [44] terms)) = terms.
Proof.
  assert (H : parse_terms (join [44] terms) = terms).
  { destruct terms as [|t ts]; [reflexivity|].
    unfold parse_terms. rewrite split_join.
    - now apply clean_terms_kept.
    - discriminate.
    - eapply Forall_impl; [exact Hclean|]. now intros x (_ & _ & Hx). }
  split; [exact H|].
  now rewrite (proj2 (parse_terms_clean _)).
Qed.

Lemma parse_terms_join_witness :
  parse_terms (join [44] [py "martillo"; py "clavo 2 pulgadas"; py "martillo"])
  = [py "martillo"; py "clavo 2 pulgadas"; py "martillo"]
  /\ parse_terms (strip (join [44] [py "martillo"; py "clavo 2 pulgadas";
                                     py "martillo"]))
     = [py "martillo"; py "clavo 2 pulgadas"; py "martillo"].
Proof.
  apply parse_terms_join.
  repeat (constructor;
          [split; [vm_compute; discriminate
                  | split; [vm_compute; reflexivity
                           | vm_compute; repeat constructor; discriminate]]|]).
  constructor.
Defined.

Lemma like_clauses_placeholders terms :
  count_occ Z.eq_dec (like_clauses terms) 63 = length terms.
Proof.
  unfold like_clauses. induction terms as [|t terms IH]; [reflexivity|].
  destruct terms as [|t' terms']; [reflexivity|].
  change (join (py " OR ") (map (fun _ : pystr => py "Descri LIKE ?")
                              (t :: t' :: terms')))
    with (py "Descri LIKE ?" ++ py " OR "
          ++ join (py " OR ") (map (fun _ : pystr => py "Descri LIKE ?")
                                 (t' :: terms'))).
  rewrite !count_occ_app, IH. reflexivity.
Qed.

(** X15: the query text holds as many placeholders [?] as there are
    terms, which is the number of parameters passed with it. *)
Theorem search_query_placeholders (terms : list pystr) :
  count_occ Z.eq_dec (search_query terms) 63 = length terms
  /\ length (like_params terms) = length terms.
Proof.
  split; [|apply like_params_terms].
  unfold search_query, where_clause.
  rewrite !count_occ_app, like_clauses_placeholders.
  repeat match goal with
         | |- context [count_occ Z.eq_dec ?l 63] =>
             let v := eval vm_compute in (count_occ Z.eq_dec l 63) in
             change (count_occ Z.eq_dec l 63) with v
         end.
  lia.
Qed.

(** X16: how the server reads the WHERE clause the code writes: a row
    is selected when one of the LIKEs before the last holds, or when
    the last LIKE holds and the price is positive.  With one term, and
    for rows whose price is positive, that is: some LIKE holds and the
    price is positive. *)
Theorem where_clause_selects (like : pystr -> option pystr -> bool)
        (terms : list pystr) (last_term : pystr) (row : stock_row) :
  let all := terms ++ [last_term] in
  Sql.selects like (where_clause all) (like_params all) row
  = Some (existsb (fun p => like p (row_descri row)) (like_params terms)
          || (like (py "%" ++ last_term ++ py "%") (row_descri row)
              && Sql.price_positive (row_precio row)))
  /\ (terms = [] \/ Sql.price_positive (row_precio row) = true ->
      Sql.selects like (where_clause all) (like_params all) row
      = Some (Sql.matches_and_priced like (like_params all) row)).
Proof.
  intros all. unfold all. split; [apply where_clause_reading|].
  intros H. rewrite where_clause_reading. f_equal.
  unfold Sql.matches_and_priced, like_params.
  rewrite map_app, existsb_app. cbn [map existsb].
  fold (like_params terms). rewrite orb_false_r.
  change (py "%" ++ last_term ++ py "%") with (37 :: last_term ++ [37]).
  destruct H as [-> | ->].
  - reflexivity.
  - now rewrite !andb_true_r.
Qed.

(* ================================================================== *)
(** * The log of a synchronisation *)
(* ================================================================== *)

Section SyncLog.
Context {db : UnicodeDB}.
Variable cfg : config.
Variable w : world.

Lemma printed_app t1 t2 : printed (t1 ++ t2) = printed t1 ++ printed t2.
Proof. unfold printed. apply flat_map_app. Qed.

Lemma printed_cons e t :
  printed (e :: t)
  = match e with Print line => [line] | _ => [] end ++ printed t.
Proof. reflexivity. Qed.

Lemma imap_shift {A B} (f : nat -> A -> B) k (l : list A) :
  imap (fun j => f (k + S j)%nat) l = imap (fun j => f (S k + j)%nat) l.
Proof. apply imap_ext. intros j x _. f_equal. lia. Qed.

(** The lines of a loop that inserts every batch. *)
Lemma insert_batches_log_ok products starts k total :
  map (fun i => (i / batch_size)%nat) starts = seq k (length starts) ->
  succeeded (snd (insert_batches cfg w products starts total)) = true ->
  printed (fst (insert_batches cfg w products starts total))
  = imap (fun j => batch_line (k + j))
         (map (fun i => slice products i (i + batch_size)) starts)
    ++ [completed_line
          (total + length (concat
             (map (fun i => slice products i (i + batch_size)) starts)))].
Proof.
  revert k total. induction starts as [|i starts IH]; intros k total Hidx.
  - intros _. rewrite insert_batches_done. cbn [map concat length fst imap app].
    now rewrite Nat.add_0_r.
  - assert (Hi : (i / batch_size)%nat = k) by (now injection Hidx).
    assert (Hidx' : map (fun i => (i / batch_size)%nat) starts
                    = seq (S k) (length starts)) by (now injection Hidx).
    cbn [insert_batches map concat imap]. rewrite Hi.
    set (batch := slice products i (i + batch_size)).
    specialize (IH (S k) (total + length batch)%nat Hidx').
    unfold call, bind, emit, ret.
    destruct (http_post w k batch) as [r|e]; [|discriminate].
    destruct (bool_decide (status_code r ∈ [200; 201; 204])); [|discriminate].
    destruct (insert_batches cfg w products starts (total + length batch))
      as [t [b|e]]; cbn [fst snd succeeded] in *; [|discriminate].
    intros Hb. specialize (IH Hb).
    fold (batch_line k batch). rewrite !printed_app, IH.
    change (printed [HttpPost ?u ?h ?b]) with (@nil pystr).
    change (printed [Print ?l]) with [l].
    rewrite length_app, Nat.add_assoc, Nat.add_0_r.
    unfold compose. rewrite (imap_shift (fun n => batch_line n)).
    reflexivity.
Qed.

(** The lines of a loop one of whose batches is refused. *)
Lemma insert_batches_log_refused products starts k total j i r :
  map (fun i => (i / batch_size)%nat) starts = seq k (length starts) ->
  starts !! j = Some i ->
  (forall j' i', (j' < j)%nat -> starts !! j' = Some i' ->
     post_ok (http_post w (k + j')
                (slice products i' (i' + batch_size))) = true) ->
  http_post w (k + j) (slice products i (i + batch_size)) = Returns r ->
  bool_decide (status_code r ∈ [200; 201; 204]) = false ->
  printed (fst (insert_batches cfg w products starts total))
  = imap (fun j => batch_line (k + j))
         (take j (map (fun i => slice products i (i + batch_size)) starts))
    ++ [batch_error_line (k + j) r]
  /\ snd (insert_batches cfg w products starts total) = Returns false.
Proof.
  revert k total j. induction starts as [|i0 starts IH];
    intros k total j Hidx Hj Hbefore Hr Hrefused; [discriminate|].
  assert (Hi : (i0 / batch_size)%nat = k) by (now injection Hidx).
  assert (Hidx' : map (fun i => (i / batch_size)%nat) starts
                  = seq (S k) (length starts)) by (now injection Hidx).
  cbn [insert_batches map]. rewrite Hi.
  set (batch := slice products i0 (i0 + batch_size)).
  unfold call, bind, emit, ret.
  destruct j as [|j].
  - injection Hj as ->. rewrite Nat.add_0_r in Hr. fold batch in Hr.
    rewrite Hr, Hrefused. cbn [fst snd take imap].
    rewrite Nat.add_0_r. fold (batch_error_line k r).
    split; reflexivity.
  - cbn [lookup list_lookup] in Hj.
    pose proof (Hbefore 0%nat i0 ltac:(lia) eq_refl) as H0.
    rewrite Nat.add_0_r in H0. fold batch in H0.
    destruct (http_post w k batch) as [r0|e]; [|discriminate].
    cbn [post_ok] in H0. rewrite H0.
    destruct (IH (S k) (total + length batch)%nat j Hidx' Hj) as [IH1 IH2].
    + intros j' i' Hlt Hi'. replace (S k + j')%nat with (k + S j')%nat by lia.
      apply Hbefore; [lia | exact Hi'].
    + now replace (S k + j)%nat with (k + S j)%nat by lia.
    + exact Hrefused.
    + destruct (insert_batches cfg w products starts (total + length batch))
        as [t o]. cbn [fst snd] in *. subst o. split; [|reflexivity].
      fold (batch_line k batch). rewrite !printed_app, IH1.
      change (printed [HttpPost ?u ?h ?b]) with (@nil pystr).
      change (printed [Print ?l]) with [l].
      cbn [take imap app]. rewrite Nat.add_0_r.
      unfold compose. rewrite (imap_shift (fun n => batch_line n)).
      now replace (S k + j)%nat with (k + S j)%nat by lia.
Qed.

Variable rows : list stock_row.
Hypothesis Hurl : truthy (SUPABASE_URL cfg) = true.
Hypothesis Hkey : truthy (SUPABASE_KEY cfg) = true.
Hypothesis Hconnect : sql_connect w = Returns tt.
Hypothesis Hcatalog : sql_catalog w catalog_query = Returns rows.

(** The lines of a run that reads the catalogue and whose bulk delete
    is answered. *)
Lemma sync_run_printed r :
  http_delete w = Returns r ->
  let loop := insert_batches cfg w (products_of w rows)
                (range_step 0 (length (products_of w rows)) batch_size) 0 in
  printed (fst (sync_catalog_to_supabase cfg w))
  = started_line w :: read_line (length rows)
    :: (if bool_decide (status_code r ∈ [200; 204]) then []
        else [delete_error_line r])
    ++ printed (fst loop)
    ++ (if snd loop is Raises e then [failure_line e] else []).
Proof.
  intros Hdel loop. unfold sync_catalog_to_supabase. rewrite Hurl, Hkey.
  cbn [negb orb]. unfold sync_body, read_products, call, emit, ret, bind.
  rewrite Hconnect, Hcatalog, Hdel.
  fold (products_of w rows). fold loop.
  assert (Hlen : length (products_of w rows) = length rows)
    by apply length_imap.
  rewrite Hlen. unfold started_line, read_line, delete_error_line.
  destruct (bool_decide (status_code r ∈ [200; 204]));
    destruct loop as [t [b|e]]; cbn [fst snd app try_except];
    rewrite ?sync_handler_line; cbn [fst snd];
    rewrite ?printed_cons, ?printed_app, ?printed_cons; cbn [app];
    change (printed []) with (@nil pystr); rewrite ?app_nil_r; reflexivity.
Qed.

End SyncLog.

(** X17: the log of a run that returns [True]: the start, the number
    of rows read, one line when the bulk delete was refused, then for
    every batch of 1000 its number, counted from 1, with its size, and
    last the count of all the rows. *)
Theorem sync_success_log (db : UnicodeDB) (cfg : config) (w : world)
        (Hok : snd (sync_catalog_to_supabase cfg w) = true) :
  exists rows deleted,
    sql_catalog w catalog_query = Returns rows
    /\ http_delete w = Returns deleted
    /\ printed (fst (sync_catalog_to_supabase cfg w))
       = [started_line w; read_line (length rows)]
         ++ (if bool_decide (status_code deleted ∈ [200; 204]) then []
             else [delete_error_line deleted])
         ++ imap batch_line (Spec.batches 1000 (products_of w rows))
         ++ [completed_line (length rows)].
Proof.
  set (run := sync_catalog_to_supabase cfg w) in *.
  destruct (negb (truthy (SUPABASE_URL cfg)) || negb (truthy (SUPABASE_KEY cfg)))
    eqn:Hcfg.
  { unfold run in Hok. now rewrite (sync_run_unconfigured cfg w Hcfg) in Hok. }
  apply orb_false_elim in Hcfg as [Hurl Hkey].
  apply negb_false_iff in Hurl, Hkey.
  destruct (sql_connect w) as [[]|e] eqn:Hc.
  2:{ destruct (sync_run_connect_raises cfg w Hurl Hkey e Hc) as [_ Hr].
      fold run in Hr. congruence. }
  destruct (sql_catalog w catalog_query) as [rows|e] eqn:Hq.
  2:{ destruct (sync_run_query_raises cfg w Hurl Hkey tt e Hc Hq) as [_ Hr].
      fold run in Hr. congruence. }
  destruct (http_delete w) as [r|e] eqn:Hd.
  2:{ destruct (sync_run_delete_raises cfg w rows Hurl Hkey Hc Hq e Hd) as [_ Hr].
      fold run in Hr. congruence. }
  exists rows, r. split; [reflexivity|]. split; [reflexivity|].
  destruct (sync_run_delete_returns cfg w rows Hurl Hkey Hc Hq r Hd)
    as (_ & _ & _ & Hsnd).
  fold run in Hsnd. rewrite Hok in Hsnd. symmetry in Hsnd.
  pose proof (sync_run_printed cfg w rows Hurl Hkey Hc Hq r Hd) as Hlog.
  cbv zeta in Hlog. fold run in Hlog. rewrite Hlog. clear Hlog.
  assert (Hidx : map (fun i => (i / batch_size)%nat)
                    (range_step 0 (length (products_of w rows)) batch_size)
                  = seq 0 (length (range_step 0 (length (products_of w rows))
                                              batch_size))).
  { rewrite range_step_index by (unfold batch_size; lia). f_equal.
    rewrite <- (slices_batches batch_size (products_of w rows))
      by (unfold batch_size; lia).
    now rewrite length_map. }
  pose proof (insert_batches_log_ok cfg w (products_of w rows) _ 0 0 Hidx Hsnd)
    as Hloop.
  rewrite slices_batches, batches_concat in Hloop by (unfold batch_size; lia).
  change batch_size with 1000%nat in Hloop at 2.
  rewrite Hloop.
  destruct (snd (insert_batches cfg w (products_of w rows)
                   (range_step 0 (length (products_of w rows)) batch_size) 0))
    as [b|e]; [|discriminate].
  assert (Hlen : length (products_of w rows) = length rows)
    by apply length_imap.
  rewrite Hlen, app_nil_r. reflexivity.
Qed.

Lemma sync_success_log_witness :
  let w := Sample.all_well [Sample.martillo; Sample.martillo_sin_precio] in
  exists rows deleted,
    sql_catalog w catalog_query = Returns rows
    /\ http_delete w = Returns deleted
    /\ printed (fst (@sync_catalog_to_supabase latin1 (Sample.cfg None) w))
       = [started_line w; read_line (length rows)]
         ++ (if bool_decide (status_code deleted ∈ [200; 204]) then []
             else [delete_error_line deleted])
         ++ imap batch_line (Spec.batches 1000 (@products_of latin1 w rows))
         ++ [completed_line (length rows)].
Proof.
  exact (sync_success_log latin1 (Sample.cfg None)
           (Sample.all_well [Sample.martillo; Sample.martillo_sin_precio])
           eq_refl).
Defined.

(** X18: when a batch is answered with a status other than 200, 201
    and 204, after the earlier ones were inserted, the run stops there:
    it posts no later batch, its log ends with the lines of the earlier
    batches and the number, status and text of the refused one, and it
    returns [False]. *)
Theorem sync_batch_refused (db : UnicodeDB) (cfg : config) (w : world)
        (rows : list stock_row) (deleted : response)
        (k : nat) (b : list product) (r : response)
        (Hurl : truthy (SUPABASE_URL cfg) = true)
        (Hkey : truthy (SUPABASE_KEY cfg) = true)
        (Hconnect : sql_connect w = Returns tt)
        (Hcatalog : sql_catalog w catalog_query = Returns rows)
        (Hdelete : http_delete w = Returns deleted)
        (Hb : Spec.batches 1000 (products_of w rows) !! k = Some b)
        (Hbefore : forall j b', (j < k)%nat ->
                     Spec.batches 1000 (products_of w rows) !! j = Some b' ->
                     post_ok (http_post w j b') = true)
        (Hanswer : http_post w k b = Returns r)
        (Hrefused : bool_decide (status_code r ∈ [200; 201; 204]) = false) :
  let run := sync_catalog_to_supabase cfg w in
  posted (fst run) = take (S k) (Spec.batches 1000 (products_of w rows))
  /\ printed (fst run)
     = [started_line w; read_line (length rows)]
       ++ (if bool_decide (status_code deleted ∈ [200; 204]) then []
           else [delete_error_line deleted])
       ++ imap batch_line (take k (Spec.batches 1000 (products_of w rows)))
       ++ [batch_error_line k r]
  /\ snd run = false.
Proof.
  intros run.
  destruct (sync_run_calls cfg w rows Hurl Hkey Hconnect Hcatalog deleted Hdelete)
    as [Hcalls Hres].
  fold run in Hcalls, Hres. change batch_size with 1000%nat in Hcalls, Hres.
  rewrite (attempted_first_failure (http_post w) 0 _ k b Hb Hbefore) in Hcalls, Hres
    by (simpl; now rewrite Hanswer).
  split; [|split; [|exact Hres]].
  - rewrite <- posted_http_calls, Hcalls.
    change (posted (delete_call cfg :: ?l)) with (posted l).
    apply posted_post_calls.
  - pose proof (sync_run_printed cfg w rows Hurl Hkey Hconnect Hcatalog
                  deleted Hdelete) as Hlog.
    cbv zeta in Hlog. fold run in Hlog. rewrite Hlog. clear Hlog.
    pose proof (slices_batches batch_size (products_of w rows)
                  ltac:(unfold batch_size; lia)) as Hs.
    pose proof Hs as Hs0.
    change batch_size with 1000%nat in Hs at 3. rewrite <- Hs in Hb, Hbefore.
    rewrite lookup_map in Hb.
    destruct (range_step 0 (length (products_of w rows)) batch_size !! k)
      as [i|] eqn:Hi; [|discriminate].
    injection Hb as Hb.
    destruct (insert_batches_log_refused cfg w (products_of w rows)
                (range_step 0 (length (products_of w rows)) batch_size)
                0 0 k i r) as [Hp Hr].
    + rewrite range_step_index by (unfold batch_size; lia).
      f_equal. rewrite <- Hs0. now rewrite length_map.
    + exact Hi.
    + intros j' i' Hlt Hi'. apply (Hbefore j'); [exact Hlt|].
      now rewrite lookup_map, Hi'.
    + simpl. now rewrite Hb.
    + exact Hrefused.
    + rewrite Hp, Hr, Hs0. change batch_size with 1000%nat.
      now rewrite app_nil_r.
Qed.

Lemma sync_batch_refused_witness :
  let w := Sample.world_of [Sample.martillo] (Returns Sample.no_content)
             (fun _ => Returns Sample.unavailable) in
  let run := @sync_catalog_to_supabase latin1 (Sample.cfg None) w in
  posted (fst run)
  = take 1 (Spec.batches 1000 (@products_of latin1 w [Sample.martillo]))
  /\ printed (fst run)
     = [started_line w; read_line (length [Sample.martillo])]
       ++ (if bool_decide (status_code Sample.no_content ∈ [200; 204]) then []
           else [delete_error_line Sample.no_content])
       ++ imap batch_line
            (take 0 (Spec.batches 1000 (@products_of latin1 w [Sample.martillo])))
       ++ [batch_error_line 0 Sample.unavailable]
  /\ snd run = false.
Proof.
  refine (sync_batch_refused latin1 (Sample.cfg None)
            (Sample.world_of [Sample.martillo] (Returns Sample.no_content)
               (fun _ => Returns Sample.unavailable))
            [Sample.martillo] Sample.no_content 0%nat _ Sample.unavailable
            eq_refl eq_refl eq_refl eq_refl eq_refl eq_refl _ eq_refl eq_refl).
  intros j b' Hj. lia.
Defined.

(* ================================================================== *)
(** * The start-up *)
(* ================================================================== *)

Lemma started_app fn a b :
  Boot.started fn (a ++ b) = (Boot.started fn a + Boot.started fn b)%nat.
Proof. unfold Boot.started. now rewrite List.filter_app, length_app. Qed.

Lemma started_launch cfg fn :
  Boot.started fn (Boot.launch cfg)
  = if truthy (SUPABASE_URL cfg) && truthy (SUPABASE_KEY cfg) then 1%nat
    else 0%nat.
Proof.
  unfold Boot.launch.
  destruct (truthy (SUPABASE_URL cfg) && truthy (SUPABASE_KEY cfg));
    destruct fn; reflexivity.
Qed.

(** X19: without the four SQL Server variables neither module gets past
    its imports: loading [app.py] raises, and so does [start.py], which
    imports it.  With them, [start.py] ends by serving, which importing
    [app.py] never does, and it starts each of the two threads twice as
    often as [app.py] alone: once each per module when the mirror is
    configured, never otherwise. *)
Theorem start_py_launches_twice (cfg : config) :
  (Boot.sql_configured cfg = false ->
   exists e, (forall main, Boot.app_py main cfg = Raises e)
             /\ Boot.start_py cfg = Raises e)
  /\ (Boot.sql_configured cfg = true ->
      exists imported steps,
        Boot.app_py false cfg = Returns imported
        /\ Boot.start_py cfg = Returns steps
        /\ (Boot.serve ∉ imported)
        /\ last steps = Some Boot.serve
        /\ forall fn,
            Boot.started fn imported
            = (if truthy (SUPABASE_URL cfg) && truthy (SUPABASE_KEY cfg)
               then 1%nat else 0%nat)
            /\ Boot.started fn (Boot.launch cfg ++ [Boot.serve])
               = Boot.started fn imported
            /\ Boot.started fn steps = (2 * Boot.started fn imported)%nat).
Proof.
  unfold Boot.start_py, Boot.app_py. split; intros ->.
  - eexists. split; [intros main|]; reflexivity.
  - exists (Boot.launch cfg ++ []), ((Boot.launch cfg ++ []) ++ Boot.launch cfg ++ [Boot.serve]).
    split; [reflexivity|]. split; [reflexivity|]. split; [|split].
    + rewrite app_nil_r. unfold Boot.launch.
      destruct (truthy (SUPABASE_URL cfg) && truthy (SUPABASE_KEY cfg));
        intros H; repeat (apply elem_of_cons in H as [H|H]; [discriminate H|]);
        now apply elem_of_nil in H.
    + rewrite !app_assoc. apply last_snoc.
    + intros fn. rewrite !started_app, !started_launch.
      destruct (truthy (SUPABASE_URL cfg) && truthy (SUPABASE_KEY cfg));
        repeat split; reflexivity.
Qed.
